(** * Verification of the metrics core of go-component-base

    A shallow embedding of [pkg/metrics] (metrics.go, report.go): the four
    metric kinds, the [Collector] registry and the reporter loop, followed
    by the properties proved about them.

    Conventions of the embedding.
    - [float64] is Rocq's primitive binary64 [float]; Go's [<=], [<], [==],
      [+] and [*] on float64 are [PrimFloat.leb], [ltb], [eqb], [add], [mul].
    - [atomic.Uint64] / [atomic.Int64] are [Z] with the wrap-around written
      out ([wrap64], [wrap_int64]).
    - Methods with pointer receivers are state-passing functions on the
      record; a method that can panic returns [option].
    - [map[string]Metric] is a reference type: maps live in a store and are
      named by their address, so that aliasing is visible.
    - The mutexes are not modelled: every method body is one atomic step. *)

From Stdlib Require Import ZArith List Floats Uint63 Lia Permutation Sorted.
From stdpp Require Import base option list sorting gmap strings.
Import ListNotations.

Set Warnings "-inexact-float".
#[local] Open Scope Z_scope.

(** ** float64 and the library functions the package calls *)

(** What a conversion [int(f)] yields when [f] is not representable as an
    [int]: the Go specification leaves the value to the implementation. *)
Class Arch := { int_indefinite : float -> Z }.

(** amd64: CVTTSD2SQ stores the "integer indefinite" value. *)
Definition amd64 : Arch := {| int_indefinite := fun _ => - 2 ^ 63 |}.

Module Float64.

(** Truncation toward zero of a finite float. *)
Definition trunc (f : float) : option Z :=
  match Prim2SF f with
  | S754_zero _ => Some 0
  | S754_finite s m e =>
      let a := Z.shiftl (Z.pos m) e in Some (if s then - a else a)
  | S754_infinity _ | S754_nan => None
  end.

(** [int(f)] on a 64-bit platform. *)
Definition int `{Arch} (f : float) : Z :=
  match trunc f with
  | Some z => if (- 2 ^ 63 <=? z) && (z <? 2 ^ 63) then z else int_indefinite f
  | None => int_indefinite f
  end.

(** [float64(n)] for an [int] [n] with [|n| < 2^63]; the package converts
    lengths only. *)
Definition float64 (n : Z) : float :=
  if n <? 0 then PrimFloat.opp (of_uint63 (Uint63.of_Z (- n)))
  else of_uint63 (Uint63.of_Z n).

(** [sort.Float64Slice.Less]: ascending, NaN before every other value. *)
Definition Less (x y : float) : bool :=
  (x <? y)%float || (is_nan x && negb (is_nan y)).

(** [Less] on the specification side of the floats. *)
Definition SFLess (x y : spec_float) : bool :=
  SFltb x y || (negb (SFeqb x x) && negb (negb (SFeqb y y))).

(** The insertion sort of the library's [sort] package, which
    [sort.Float64s] runs on slices of at most 12 elements: every element
    moves left while it is [Less] than its predecessor. *)
Fixpoint insert (x : float) (l : list float) : list float :=
  match l with
  | [] => [x]
  | y :: l' => if Less x y then x :: y :: l' else y :: insert x l'
  end.

Definition insertionSort (l : list float) : list float :=
  fold_left (fun acc x => insert x acc) l [].

(** The order a sorted slice is in: no element is [Less] than its
    predecessor. *)
Definition ascending (l : list float) : Prop :=
  Sorted (fun a b => Less b a = false) l.

(** [sort.Float64s].  The function is the library's (a pattern-defeating
    quicksort, not stable on longer slices) and not part of the package, so
    it is a parameter, with what the library guarantees of it: the result is
    the argument rearranged in ascending order; at most 12 elements are
    sorted by [insertionSort]; a slice already ascending is left as it
    is. *)
Class Sort := {
  Float64s : list float -> list float;
  sort_perm : forall l, Permutation l (Float64s l);
  sort_ascending : forall l, ascending (Float64s l);
  sort_short : forall l, (length l <= 12)%nat -> Float64s l = insertionSort l;
  sort_ascending_id : forall l, ascending l -> Float64s l = l
}.

End Float64.

(** [map[float64]float64]: keys are compared with [==], so a NaN key is never
    found again and [+0] and [-0] are the same key.  The list order stands for
    the (unspecified) iteration order. *)
Module FloatMap.

Definition t := list (float * float).

Definition make : t := [].

Fixpoint get (m : t) (k : float) : option float :=
  match m with
  | [] => None
  | (k', v) :: m' => if (k' =? k)%float then Some v else get m' k
  end.

Fixpoint set (m : t) (k v : float) : t :=
  match m with
  | [] => [(k, v)]
  | (k', v') :: m' =>
      if (k' =? k)%float then (k, v) :: m' else (k', v') :: set m' k v
  end.

Definition keys (m : t) : list float := map fst m.

(** Two maps that answer every lookup alike. *)
Definition agree (m1 m2 : t) : Prop := forall k, get m1 k = get m2 k.

End FloatMap.

(** ** metrics.go: the metric kinds *)

(** [atomic.Uint64] arithmetic. *)
Definition wrap64 (z : Z) : Z := z mod 2 ^ 64.

(** [atomic.Int64] arithmetic (two's complement). *)
Definition wrap_int64 (z : Z) : Z := (z + 2 ^ 63) mod 2 ^ 64 - 2 ^ 63.

Inductive MetricType := Counter | Gauge | Histogram | Summary.

(** The dynamic values [Value() interface{}] returns. *)
Inductive any :=
| Uint64 (n : Z)
| Int64 (n : Z)
| Float64Slice (l : list float).

Module CounterMetric.

Record t := mk { name : string; value : Z }.

Definition Name (c : t) : string := name c.
Definition Type_ (c : t) : MetricType := Counter.
Definition Value (c : t) : any := Uint64 (value c).
Definition Inc (c : t) : t := mk (name c) (wrap64 (value c + 1)).
Definition Add (c : t) (delta : Z) : t := mk (name c) (wrap64 (value c + delta)).
Definition Reset (c : t) : t := mk (name c) 0.

(** Calls a client can make on a counter, for stating facts about any
    history. *)
Inductive call := CallInc | CallAdd (delta : Z) | CallReset.

Definition exec (c : t) (k : call) : t :=
  match k with
  | CallInc => Inc c
  | CallAdd delta => Add c delta
  | CallReset => Reset c
  end.

(** The increments since the last [Reset], summed as integers. *)
Definition total (calls : list call) : Z :=
  fold_left (fun acc k =>
               match k with
               | CallInc => acc + 1
               | CallAdd delta => acc + delta
               | CallReset => 0
               end) calls 0.

End CounterMetric.

Module GaugeMetric.

Record t := mk { name : string; value : Z }.

Definition Name (g : t) : string := name g.
Definition Type_ (g : t) : MetricType := Gauge.
Definition Value (g : t) : any := Int64 (value g).
Definition Set_ (g : t) (v : Z) : t := mk (name g) v.
Definition Add (g : t) (delta : Z) : t := mk (name g) (wrap_int64 (value g + delta)).
Definition Sub (g : t) (delta : Z) : t :=
  mk (name g) (wrap_int64 (value g + wrap_int64 (- delta))).

Inductive call := CallSet (value : Z) | CallAdd (delta : Z) | CallSub (delta : Z).

Definition exec (g : t) (k : call) : t :=
  match k with
  | CallSet value => Set_ g value
  | CallAdd delta => Add g delta
  | CallSub delta => Sub g delta
  end.

(** The range of [int64]. *)
Definition is_int64 (z : Z) : Prop := - 2 ^ 63 <= z < 2 ^ 63.

(** A call whose argument is an [int64], as the signatures require. *)
Definition well_typed (k : call) : Prop :=
  match k with
  | CallSet value => is_int64 value
  | CallAdd delta | CallSub delta => is_int64 delta
  end.

(** The last value set and the deltas applied since, as an integer. *)
Definition net (calls : list call) : Z :=
  fold_left (fun acc k =>
               match k with
               | CallSet value => value
               | CallAdd delta => acc + delta
               | CallSub delta => acc - delta
               end) calls 0.

End GaugeMetric.

Module HistogramMetric.

Record t := mk {
  name : string;
  buckets : list float;
  counts : list float;
  count : Z;
  sum : float
}.

Definition Name (h : t) : string := name h.
Definition Type_ (h : t) : MetricType := Histogram.

(** [append([]float64(nil), h.counts...)]: a copy. *)
Definition Value (h : t) : any := Float64Slice (counts h).

(** The body of [for i, bucket := range h.buckets], from index [i] on;
    [None] is the run-time panic of [h.counts[i]] out of range. *)
Fixpoint observe_loop (value : float) (i : nat) (bs : list float)
    (cs : list float) : option (list float) :=
  match bs with
  | [] => Some cs
  | bucket :: bs' =>
      if (value <=? bucket)%float then
        match cs !! i with
        | Some c => observe_loop value (S i) bs' (<[i := (c + 1)%float]> cs)
        | None => None
        end
      else observe_loop value (S i) bs' cs
  end.

Definition Observe (h : t) (value : float) : option t :=
  if decide (length (buckets h) = 0%nat) then Some h
  else
    let count' := wrap64 (count h + 1) in
    let sum' := (sum h + value)%float in
    match observe_loop value 0 (buckets h) (counts h) with
    | Some counts' => Some (mk (name h) (buckets h) counts' count' sum')
    | None => None
    end.

Definition Count (h : t) : Z := count h.
Definition Sum (h : t) : float := sum h.
Definition Buckets (h : t) : list float := buckets h.

(** A float64 count after [n] times [c++], starting at [c]. *)
Definition incremented (n : nat) (c : float) : float :=
  Nat.iter n (fun c => (c + 1)%float) c.

(** How many of [values] the bucket of bound [bound] takes. *)
Definition taken (bound : float) (values : list float) : nat :=
  length (List.filter (fun v => (v <=? bound)%float) values).

(** Observing a sequence of values, left to right. *)
Fixpoint observe_all (h : t) (values : list float) : option t :=
  match values with
  | [] => Some h
  | v :: vs => match Observe h v with
               | Some h' => observe_all h' vs
               | None => None
               end
  end.

End HistogramMetric.

Module SummaryMetric.

Record t := mk {
  name : string;
  quantiles : FloatMap.t;
  values : list float;
  sum : float;
  count : Z
}.

Definition Name (s : t) : string := name s.
Definition Type_ (s : t) : MetricType := Summary.
Definition Value (s : t) : any := Float64Slice (values s).

Definition Observe (s : t) (value : float) : t :=
  mk (name s) (quantiles s) (values s ++ [value]) (sum s + value)%float
     (wrap64 (count s + 1)).

Definition Count (s : t) : Z := count s.
Definition Sum (s : t) : float := sum s.

Definition len (l : list float) : Z := Z.of_nat (length l).

(** The body of [for q := range s.quantiles] over the keys still to
    visit; [None] is the run-time panic of [sortedValues[index]] with a
    negative index. *)
Fixpoint quantiles_loop `{Arch} (qs : list float) (sortedValues : list float)
    (quantiles : FloatMap.t) : option FloatMap.t :=
  match qs with
  | [] => Some quantiles
  | q :: qs' =>
      let index := Float64.int (q * Float64.float64 (len sortedValues))%float in
      let index := if index >=? len sortedValues
                   then len sortedValues - 1 else index in
      if index <? 0 then None
      else match sortedValues !! Z.to_nat index with
           | Some v => quantiles_loop qs' sortedValues (FloatMap.set quantiles q v)
           | None => None
           end
  end.

(** The nearest rank of quantile [q] among [n] sorted samples, as the
    specification words it: [floor (q * n)], at most [n - 1]; the product
    is float64's. *)
Definition nearest_rank `{Arch} (q : float) (n : Z) : Z :=
  Z.min (Float64.int (q * Float64.float64 n)%float) (n - 1).

Definition Quantiles `{Arch} `{Float64.Sort} (s : t) : option FloatMap.t :=
  let quantiles := FloatMap.make in
  if len (values s) =? 0 then Some quantiles
  else
    let sortedValues := Float64.Float64s (values s) in
    quantiles_loop (FloatMap.keys (SummaryMetric.quantiles s)) sortedValues quantiles.

(** [s.values = s.values[:0]]: the slice keeps its array and has length 0. *)
Definition Reset (s : t) : t := mk (name s) (quantiles s) [] 0%float 0.

Inductive call := CallObserve (value : float) | CallReset.

Definition exec (s : t) (k : call) : t :=
  match k with
  | CallObserve value => Observe s value
  | CallReset => Reset s
  end.

(** The samples observed since the last [Reset], in order. *)
Definition retained (calls : list call) : list float :=
  fold_left (fun acc k =>
               match k with
               | CallObserve value => acc ++ [value]
               | CallReset => []
               end) calls [].

End SummaryMetric.

(** The constructors.  [NewHistogram] sorts the caller's slice in place and
    keeps it. *)
Definition NewCounter (name : string) : CounterMetric.t :=
  CounterMetric.mk name 0.

Definition NewGauge (name : string) : GaugeMetric.t :=
  GaugeMetric.mk name 0.

Definition NewHistogram `{Float64.Sort} (name : string) (buckets : list float)
    : HistogramMetric.t :=
  let buckets := Float64.Float64s buckets in
  HistogramMetric.mk name buckets (repeat 0%float (length buckets)) 0 0%float.

Definition NewSummary (name : string) (quantiles : FloatMap.t) : SummaryMetric.t :=
  SummaryMetric.mk name quantiles [] 0%float 0.

(** ** metrics.go: the [Metric] interface and the [Collector] *)

(** The object behind a [Metric] interface value. *)
Inductive object :=
| OCounter (c : CounterMetric.t)
| OGauge (g : GaugeMetric.t)
| OHistogram (h : HistogramMetric.t)
| OSummary (s : SummaryMetric.t).

Definition addr := positive.

(** A [Metric] interface value is the address of its object; two metrics
    are the same instance when the addresses are equal. *)
Definition Metric := addr.

(** The nil pointer and the nil map: the one address at which nothing is
    ever allocated. *)
Definition nil_addr : addr := 1%positive.

(** The store: the metric objects, and the [map[string]Metric] values, both
    by address.  Nothing is freed, so the addresses in use are [nil_addr] and
    those in the store. *)
Record store := mkStore {
  objects : gmap addr object;
  maps : gmap addr (gmap string Metric)
}.

Definition empty_store : store := mkStore ∅ ∅.

(** A store of a run: [nil_addr] holds no object and no map. *)
Definition store_ok (st : store) : Prop :=
  objects st !! nil_addr = None /\ maps st !! nil_addr = None.

(** An address for a new object or map: not [nil_addr], and not in use. *)
Definition new_addr (used : gset addr) : addr := fresh ({[nil_addr]} ∪ used).

Definition alloc_object (o : object) (st : store) : Metric * store :=
  let p := new_addr (dom (objects st)) in
  (p, mkStore (<[p := o]> (objects st)) (maps st)).

Definition object_Name (o : object) : string :=
  match o with
  | OCounter c => CounterMetric.Name c
  | OGauge g => GaugeMetric.Name g
  | OHistogram h => HistogramMetric.Name h
  | OSummary s => SummaryMetric.Name s
  end.

Definition object_Type (o : object) : MetricType :=
  match o with
  | OCounter c => CounterMetric.Type_ c
  | OGauge g => GaugeMetric.Type_ g
  | OHistogram h => HistogramMetric.Type_ h
  | OSummary s => SummaryMetric.Type_ s
  end.

Definition object_Value (o : object) : any :=
  match o with
  | OCounter c => CounterMetric.Value c
  | OGauge g => GaugeMetric.Value g
  | OHistogram h => HistogramMetric.Value h
  | OSummary s => SummaryMetric.Value s
  end.

(** [m.Name()]; [None] is the nil dereference of a [Metric] with no object. *)
Definition Name (st : store) (m : Metric) : option string :=
  object_Name <$> objects st !! m.

(** Whether a metric goes by a name. *)
Definition named (st : store) (name : string) (m : Metric) : bool :=
  bool_decide (Name st m = Some name).

(** Reading a map value: a nil map reads as empty. *)
Definition read_map (st : store) (l : addr) : gmap string Metric :=
  default ∅ (maps st !! l).

Module Collector.

(** [mu] is not modelled; [metrics] is the address of the map. *)
Record t := mk { metrics : addr }.

Definition Register (c : t) (m : Metric) (st : store) : option store :=
  name ← Name st m;
  match maps st !! metrics c with
  | None => None
  | Some mp =>
      match mp !! name with
      | Some _ => Some st
      | None =>
          Some (mkStore (objects st) (<[metrics c := <[name := m]> mp]> (maps st)))
      end
  end.

Definition Get (c : t) (name : string) (st : store) : option Metric :=
  read_map st (metrics c) !! name.

(** The copy loop of [Metrics], into a map allocated by [make]. *)
Definition Metrics (c : t) (st : store) : addr * store :=
  let snapshot := new_addr (dom (maps st)) in
  let copied :=
    map_fold (fun k m (acc : gmap string Metric) => <[k := m]> acc) ∅
             (read_map st (metrics c)) in
  (snapshot, mkStore (objects st) (<[snapshot := copied]> (maps st))).

(** Registering a sequence of metrics, left to right. *)
Fixpoint register_all (c : t) (ms : list Metric) (st : store) : option store :=
  match ms with
  | [] => Some st
  | m :: ms' => match Register c m st with
                | Some st' => register_all c ms' st'
                | None => None
                end
  end.

End Collector.

Definition NewCollector (st : store) : Collector.t * store :=
  let l := new_addr (dom (maps st)) in
  (Collector.mk l, mkStore (objects st) (<[l := ∅]> (maps st))).

(** [var globalCollector = NewCollector()], run at package initialisation. *)
Definition globalCollector : Collector.t := fst (NewCollector empty_store).
Definition init_store : store := snd (NewCollector empty_store).

Definition GlobalCollector : Collector.t := globalCollector.

(** ** report.go: the reporter loop *)

(** The [Reporter] interface.  [Report] is handed a map value, that is an
    address, and runs against the store; [R] is the reporter's own state.
    [None] is a call that panics, as every call on a nil reporter does.  A
    [Report] that does not return is not in the model: the loop would wait
    in it. *)
Class Reporter (R : Type) := { Report : R -> addr -> store -> option (R * store) }.

Module Loop.

(** What the [select] of the goroutine can receive. *)
Inductive event := tick | stop.

Record t (R : Type) := mk { reporter : R; running : bool }.
Arguments mk {R}.
Arguments reporter {R}.
Arguments running {R}.

(** One iteration of the [for { select { ... } }]; [None] is a panic in the
    goroutine, which ends the process. *)
Definition step {R} `{Reporter R} (ev : event) (l : t R) (st : store)
    : option (t R * store) :=
  if running l then
    match ev with
    | tick =>
        match Report (reporter l) (Collector.metrics globalCollector) st with
        | Some (r', st') => Some (mk r' true, st')
        | None => None
        end
    | stop => Some (mk (reporter l) false, st)
    end
  else Some (l, st).

(** The goroutine receiving a sequence of events. *)
Fixpoint run {R} `{Reporter R} (evs : list event) (l : t R) (st : store)
    : option (t R * store) :=
  match evs with
  | [] => Some (l, st)
  | ev :: evs' =>
      match step ev l st with
      | Some (l', st') => run evs' l' st'
      | None => None
      end
  end.

(** [n] calls of [Report] in a row, each with the global collector's map;
    [None] when one of them panics. *)
Fixpoint reports {R} `{Reporter R} (n : nat) (r : R) (st : store)
    : option (R * store) :=
  match n with
  | O => Some (r, st)
  | S n' =>
      match Report r (Collector.metrics globalCollector) st with
      | Some (r', st') => reports n' r' st'
      | None => None
      end
  end.

(** Whether a stop is among the events. *)
Definition received_stop (evs : list event) : bool :=
  existsb (fun ev => match ev with stop => true | tick => false end) evs.

(** The ticks received before the first stop. *)
Fixpoint ticks_before_stop (evs : list event) : nat :=
  match evs with
  | [] => 0
  | tick :: evs' => S (ticks_before_stop evs')
  | stop :: _ => 0
  end.

End Loop.

(** [StartReporter]: the goroutine starts with [time.NewTicker(interval)],
    which panics unless the interval (in nanoseconds) is positive, [None],
    and then is in its loop.  The ticker is the source of the [tick]
    events; a positive interval only sets their pace. *)
Definition StartReporter {R} `{Reporter R} (interval : Z) (reporter : R)
    : option (Loop.t R) :=
  if 0 <? interval then Some (Loop.mk reporter true) else None.

(** A reporter that keeps every map it is handed, newest first. *)
Definition Recorder := list addr.

#[global] Instance Recorder_Reporter : Reporter Recorder :=
  {| Report := fun r m st => Some (m :: r, st) |}.

(** ** The runs of metrics_test.go *)

(** [TestSummary]: targets 0.5 and 0.9, observations 5, 3, 1, 4, 2. *)
Definition test_summary : SummaryMetric.t :=
  fold_left SummaryMetric.Observe [5; 3; 1; 4; 2]%float
    (NewSummary "test_summary" [(0.5, 0.05); (0.9, 0.01)]%float).

(** The same observations with a negative target. *)
Definition negative_target_summary : SummaryMetric.t :=
  fold_left SummaryMetric.Observe [5; 3; 1; 4; 2]%float
    (NewSummary "negative" [(0.5, 0.05); (-0.5, 0.01)]%float).

(** [TestHistogram]: the bounds as the test passes them, unsorted. *)
Definition test_histogram `{Float64.Sort} : HistogramMetric.t :=
  NewHistogram "test_histogram" [0.5; 1.0; 5.0; 3.0]%float.

(** Two instances under one name, and a fresh collector, as in
    [TestCollector]. *)
Definition test_collector : Collector.t := fst (NewCollector empty_store).

Definition test_first : Metric :=
  fst (alloc_object (OCounter (NewCounter "collector_counter"))
         (snd (NewCollector empty_store))).

Definition test_second : Metric :=
  fst (alloc_object (OGauge (NewGauge "collector_counter"))
         (snd (alloc_object (OCounter (NewCounter "collector_counter"))
                 (snd (NewCollector empty_store))))).

Definition test_store : store :=
  snd (alloc_object (OGauge (NewGauge "collector_counter"))
         (snd (alloc_object (OCounter (NewCounter "collector_counter"))
                 (snd (NewCollector empty_store))))).

(** The two metrics of [TestCollector], under their two names. *)
Definition test_counter_metric : Metric :=
  fst (alloc_object (OCounter (NewCounter "collector_counter")) empty_store).

Definition test_gauge_metric : Metric :=
  fst (alloc_object (OGauge (NewGauge "collector_gauge"))
         (snd (alloc_object (OCounter (NewCounter "collector_counter")) empty_store))).

Definition test_metrics_store : store :=
  snd (alloc_object (OGauge (NewGauge "collector_gauge"))
         (snd (alloc_object (OCounter (NewCounter "collector_counter")) empty_store))).

(** A [Collector] that [NewCollector] did not make: its map is nil. *)
Definition zero_collector : Collector.t := Collector.mk nil_addr.

(** A run of the reporter: a counter is registered in the global collector,
    the loop ticks once with a [Recorder], and then a gauge is registered. *)
Module ReporterRun.

Definition requests : Metric :=
  fst (alloc_object (OCounter (NewCounter "requests")) init_store).

Definition before_tick : option store :=
  Collector.Register globalCollector requests
    (snd (alloc_object (OCounter (NewCounter "requests")) init_store)).

(** The reporter's record and the store after the tick. *)
Definition after_tick : option (Recorder * store) :=
  st ← before_tick;
  l ← StartReporter 1000000000 ([] : Recorder);
  '(l', st') ← Loop.step Loop.tick l st;
  Some (Loop.reporter l', st').

(** What [Metrics()] would have given at the tick. *)
Definition snapshot_at_tick : option (addr * store) :=
  Collector.Metrics globalCollector <$> before_tick.

Definition queue (st : store) : Metric :=
  fst (alloc_object (OGauge (NewGauge "queue")) st).

Definition register_queue (st : store) : option store :=
  Collector.Register globalCollector (queue st)
    (snd (alloc_object (OGauge (NewGauge "queue")) st)).

End ReporterRun.

(** * Properties *)

(** ** The order on float64 *)

Section SpecFloatOrder.

Ltac sf_cmp :=
  repeat match goal with s : bool |- _ => destruct s end;
  cbn in *; try discriminate; try reflexivity;
  change (PosDef.Pos.compare_cont Eq) with Pos.compare in *;
  repeat match goal with
  | H : context [Z.compare ?a ?b] |- _ => destruct (Z.compare_spec a b); try subst
  | |- context [Z.compare ?a ?b] => destruct (Z.compare_spec a b); try subst
  | H : context [Pos.compare ?a ?b] |- _ => destruct (Pos.compare_spec a b); try subst
  | |- context [Pos.compare ?a ?b] => destruct (Pos.compare_spec a b); try subst
  end;
  cbn in *; try discriminate; try reflexivity; try lia.

Lemma SFLess_asym x y : Float64.SFLess x y = true -> Float64.SFLess y x = false.
Proof. unfold Float64.SFLess, SFltb, SFeqb. destruct x, y; sf_cmp. Qed.

Lemma SFleb_below a b v :
  Float64.SFLess b a = false -> SFleb v b = false -> SFleb v a = false.
Proof. unfold Float64.SFLess, SFltb, SFeqb, SFleb. destruct a, b, v; sf_cmp. Qed.

Lemma SFLess_not_trans a b c :
  Float64.SFLess b a = false -> Float64.SFLess c b = false ->
  Float64.SFLess c a = false.
Proof. unfold Float64.SFLess, SFltb, SFeqb. destruct a, b, c; sf_cmp. Qed.

Lemma SFltb_not_leb x y : SFltb x y = true -> SFleb y x = false.
Proof. unfold SFltb, SFleb. destruct x, y; sf_cmp. Qed.

Lemma SFeqb_sym x y : SFeqb x y = SFeqb y x.
Proof. unfold SFeqb. destruct x, y; sf_cmp. Qed.

Lemma SFeqb_trans x y z :
  SFeqb x y = true -> SFeqb y z = true -> SFeqb x z = true.
Proof. unfold SFeqb. destruct x, y, z; sf_cmp. Qed.

(** [==] identifies two floats only when they are the same float or both
    are zeros. *)
Lemma SFeqb_cases x y :
  SFeqb x y = true ->
  x = y \/ (exists s s', x = S754_zero s /\ y = S754_zero s').
Proof.
  unfold SFeqb. destruct x, y; try (right; eauto; fail); sf_cmp; auto.
Qed.

End SpecFloatOrder.

Section Float64Order.

#[local] Open Scope float_scope.

Lemma Less_spec x y : Float64.Less x y = Float64.SFLess (Prim2SF x) (Prim2SF y).
Proof.
  unfold Float64.Less, Float64.SFLess, is_nan.
  now rewrite FloatAxioms.ltb_spec, !FloatAxioms.eqb_spec.
Qed.

Lemma Less_asym x y : Float64.Less x y = true -> Float64.Less y x = false.
Proof. rewrite !Less_spec. apply SFLess_asym. Qed.

#[local] Instance not_Less_trans :
  Transitive (fun a b => Float64.Less b a = false).
Proof. intros a b c. rewrite !Less_spec. apply SFLess_not_trans. Qed.

Lemma leb_below a b v :
  Float64.Less b a = false -> (v <=? b) = false -> (v <=? a) = false.
Proof. rewrite Less_spec, !FloatAxioms.leb_spec. apply SFleb_below. Qed.

Lemma ltb_not_leb x y : (x <? y) = true -> (y <=? x) = false.
Proof. rewrite FloatAxioms.ltb_spec, FloatAxioms.leb_spec. apply SFltb_not_leb. Qed.

Lemma feqb_sym x y : (x =? y) = (y =? x).
Proof. rewrite !FloatAxioms.eqb_spec. apply SFeqb_sym. Qed.

Lemma feqb_trans x y z : (x =? y) = true -> (y =? z) = true -> (x =? z) = true.
Proof. rewrite !FloatAxioms.eqb_spec. apply SFeqb_trans. Qed.

Lemma feqb_left k k' q : (k =? k') = true -> (k =? q) = (k' =? q).
Proof.
  intros E. destruct (k' =? q) eqn:E'.
  - eapply feqb_trans; eauto.
  - destruct (k =? q) eqn:E''; [ | reflexivity ].
    rewrite <- E'. symmetry. apply (feqb_trans k' k q); [ | exact E'' ].
    now rewrite feqb_sym.
Qed.

End Float64Order.

(** ** [sort.Float64s] sorts *)

Section Sorting.

Lemma insert_perm x l : Permutation (x :: l) (Float64.insert x l).
Proof.
  induction l as [ | y l IH ]; simpl; [ reflexivity | ].
  destruct (Float64.Less x y); [ reflexivity | ].
  rewrite perm_swap. now apply perm_skip.
Qed.

Lemma insert_hd x l a :
  HdRel (fun a b => Float64.Less b a = false) a l ->
  Float64.Less x a = false ->
  HdRel (fun a b => Float64.Less b a = false) a (Float64.insert x l).
Proof.
  intros Hl Hx. destruct l as [ | y l ]; simpl.
  - now constructor.
  - destruct (Float64.Less x y); constructor; [ exact Hx | ].
    now inversion Hl.
Qed.

Lemma insert_ascending x l :
  Float64.ascending l -> Float64.ascending (Float64.insert x l).
Proof.
  unfold Float64.ascending.
  induction 1 as [ | y l Hs IH Hhd ]; simpl.
  - repeat constructor.
  - destruct (Float64.Less x y) eqn:E.
    + constructor; [ now constructor | ].
      constructor. now apply Less_asym.
    + constructor; [ exact IH | ]. now apply insert_hd.
Qed.

Lemma sort_from_perm l acc :
  Permutation (acc ++ l) (fold_left (fun acc x => Float64.insert x acc) l acc).
Proof.
  revert acc. induction l as [ | x l IH ]; intros acc; simpl.
  - now rewrite app_nil_r.
  - rewrite <- IH, <- insert_perm. simpl.
    symmetry. apply Permutation_middle.
Qed.

Lemma sort_from_ascending l acc :
  Float64.ascending acc ->
  Float64.ascending (fold_left (fun acc x => Float64.insert x acc) l acc).
Proof.
  revert acc. induction l as [ | x l IH ]; intros acc Hacc; simpl.
  - exact Hacc.
  - apply IH. now apply insert_ascending.
Qed.

Lemma insert_last x l :
  Forall (fun y => Float64.Less x y = false) l -> Float64.insert x l = l ++ [x].
Proof.
  induction 1 as [ | y l Hy _ IH ]; simpl; [ reflexivity | ].
  now rewrite Hy, IH.
Qed.

Lemma sort_from_ascending_id l :
  forall acc,
    Float64.ascending (acc ++ l) ->
    fold_left (fun acc x => Float64.insert x acc) l acc = acc ++ l.
Proof.
  induction l as [ | x l IH ]; intros acc Hs; simpl.
  - now rewrite app_nil_r.
  - rewrite insert_last.
    + rewrite IH; rewrite <- app_assoc; [ reflexivity | exact Hs ].
    + apply Sorted_StronglySorted in Hs; [ | apply not_Less_trans ].
      apply Forall_forall. intros y Hy.
      apply (StronglySorted_app_1_elem_of _ _ _ _ _ Hs Hy). left.
Qed.

(** The insertion sort leaves an ascending slice as it is. *)
Lemma insertionSort_ascending_id l :
  Float64.ascending l -> Float64.insertionSort l = l.
Proof. intros Hs. exact (sort_from_ascending_id l [] Hs). Qed.

Lemma insertionSort_perm l : Permutation l (Float64.insertionSort l).
Proof. exact (sort_from_perm l []). Qed.

Lemma insertionSort_ascending l : Float64.ascending (Float64.insertionSort l).
Proof. apply sort_from_ascending. constructor. Qed.

(** In an ascending slice, a value above the last element is above all. *)
Lemma above_last_above_all (v : float) l bmax :
  Float64.ascending l ->
  last l = Some bmax ->
  (bmax <? v)%float = true ->
  Forall (fun b => (v <=? b)%float = false) l.
Proof.
  intros Hs Hlast Hv. induction Hs as [ | a l Hs IH Hhd ]; [ constructor | ].
  destruct l as [ | b l ].
  - simpl in Hlast. injection Hlast as ->.
    constructor; [ now apply ltb_not_leb | constructor ].
  - assert (Hl : Forall (fun b => (v <=? b)%float = false) (b :: l))
      by (apply IH; exact Hlast).
    constructor; [ | exact Hl ].
    inversion Hhd; subst. inversion Hl; subst.
    eapply leb_below; eauto.
Qed.

End Sorting.

(** The insertion sort is a [sort.Float64s] (the one of slices of at most
    12 elements): the parameter has an instance, and the runs of the tests
    are evaluated with it. *)
#[global] Instance insertion_sort : Float64.Sort := {|
  Float64.Float64s := Float64.insertionSort;
  Float64.sort_perm := insertionSort_perm;
  Float64.sort_ascending := insertionSort_ascending;
  Float64.sort_short := fun l _ => eq_refl;
  Float64.sort_ascending_id := insertionSort_ascending_id
|}.

Section SortFacts.

Context `{Float64.Sort}.

(** An ascending slice is left as it is. *)
Lemma Float64s_ascending_id l : Float64.ascending l -> Float64.Float64s l = l.
Proof. apply Float64.sort_ascending_id. Qed.

Lemma Float64s_perm l : Permutation l (Float64.Float64s l).
Proof. apply Float64.sort_perm. Qed.

Lemma Float64s_ascending l : Float64.ascending (Float64.Float64s l).
Proof. apply Float64.sort_ascending. Qed.

Lemma Float64s_length l : length (Float64.Float64s l) = length l.
Proof. symmetry. apply Permutation_length, Float64s_perm. Qed.

Lemma Float64s_nil l : Float64.Float64s l = [] -> l = [].
Proof.
  intros E. apply length_zero_iff_nil. now rewrite <- Float64s_length, E.
Qed.

Lemma Float64s_empty : Float64.Float64s [] = [].
Proof. apply Float64s_ascending_id. constructor. Qed.

(** On at most 12 bounds or samples the sort is the insertion sort. *)
Lemma NewHistogram_short name boundaries :
  (length boundaries <= 12)%nat ->
  NewHistogram name boundaries = @NewHistogram insertion_sort name boundaries.
Proof.
  intros Hlen. unfold NewHistogram. cbv zeta.
  now rewrite (Float64.sort_short boundaries Hlen).
Qed.

Lemma Quantiles_short `{Arch} s :
  (length (SummaryMetric.values s) <= 12)%nat ->
  SummaryMetric.Quantiles s = @SummaryMetric.Quantiles _ insertion_sort s.
Proof.
  intros Hlen. unfold SummaryMetric.Quantiles. cbv zeta.
  now rewrite (Float64.sort_short _ Hlen).
Qed.

End SortFacts.

(** ** Histogram *)

Section HistogramFacts.

Context `{Float64.Sort}.

Import HistogramMetric.
#[local] Open Scope float_scope.

(** What the bucket loop does to the counts, when every bucket index from
    [i] on has a count. *)
Lemma observe_loop_spec value bs :
  forall (i : nat) (cs : list float),
    (i + length bs <= length cs)%nat ->
    exists cs',
      observe_loop value i bs cs = Some cs' /\
      length cs' = length cs /\
      (forall j, (j < i)%nat -> cs' !! j = cs !! j) /\
      (forall j, (i + length bs <= j)%nat -> cs' !! j = cs !! j) /\
      (forall j b, bs !! j = Some b ->
         exists c, cs !! (i + j)%nat = Some c /\
           cs' !! (i + j)%nat = Some (if value <=? b then c + 1 else c)).
Proof.
  induction bs as [ | bucket bs IH ]; intros i cs Hlen; simpl in *.
  - exists cs. repeat split; auto. intros j b Hj. discriminate.
  - destruct (lookup_lt_is_Some_2 cs i ltac:(lia)) as [c Hc].
    destruct (value <=? bucket) eqn:Hle.
    + rewrite Hc.
      destruct (IH (S i) (<[i := c + 1]> cs)) as (cs' & Hrun & Hl & Hlo & Hhi & Hat).
      { rewrite length_insert. lia. }
      rewrite length_insert in Hl.
      exists cs'. split; [ exact Hrun | ]. split; [ exact Hl | ].
      split; [ | split ].
      * intros j Hj. rewrite Hlo by lia. apply list_lookup_insert_ne. lia.
      * intros j Hj. rewrite Hhi by lia. apply list_lookup_insert_ne. lia.
      * intros [ | j ] b Hb; simpl in Hb.
        -- injection Hb as <-. exists c. rewrite Nat.add_0_r.
           split; [ exact Hc | ]. rewrite Hlo by lia. rewrite Hle.
           apply list_lookup_insert_eq. now apply lookup_lt_Some in Hc.
        -- destruct (Hat j b Hb) as (c' & Hc' & Hres).
           exists c'. replace (i + S j)%nat with (S i + j)%nat by lia.
           split; [ | exact Hres ].
           rewrite <- Hc'. symmetry. apply list_lookup_insert_ne. lia.
    + destruct (IH (S i) cs) as (cs' & Hrun & Hl & Hlo & Hhi & Hat); [ lia | ].
      exists cs'. split; [ exact Hrun | ]. split; [ exact Hl | ].
      split; [ | split ].
      * intros j Hj. apply Hlo. lia.
      * intros j Hj. apply Hhi. lia.
      * intros [ | j ] b Hb; simpl in Hb.
        -- injection Hb as <-. exists c. rewrite Nat.add_0_r.
           split; [ exact Hc | ]. rewrite Hlo by lia. now rewrite Hle.
        -- replace (i + S j)%nat with (S i + j)%nat by lia. now apply Hat.
Qed.

(** One observation on a histogram whose counts match its buckets. *)
Lemma Observe_spec h value :
  buckets h <> [] ->
  length (counts h) = length (buckets h) ->
  exists counts',
    Observe h value =
      Some (mk (name h) (buckets h) counts' (wrap64 (count h + 1)) (sum h + value)) /\
    length counts' = length (buckets h) /\
    (forall i b, buckets h !! i = Some b ->
       exists c, counts h !! i = Some c /\
         counts' !! i = Some (if value <=? b then c + 1 else c)).
Proof.
  intros Hne Hwf. unfold Observe.
  destruct (decide (length (buckets h) = 0%nat)) as [E | _].
  { apply length_zero_iff_nil in E. contradiction. }
  destruct (observe_loop_spec value (buckets h) 0 (counts h))
    as (cs' & Hrun & Hl & _ & _ & Hat); [ simpl; lia | ].
  rewrite Hrun. exists cs'. split; [ reflexivity | ].
  split; [ congruence | ]. intros i b Hb. exact (Hat i b Hb).
Qed.

Lemma incremented_first n c : incremented n (c + 1) = incremented (S n) c.
Proof. unfold incremented. now rewrite Nat.iter_succ_r. Qed.

Lemma taken_cons bound v vs :
  taken bound (v :: vs) = if v <=? bound then S (taken bound vs) else taken bound vs.
Proof. unfold taken. simpl. now destruct (v <=? bound). Qed.

(** The state after any observations on a histogram whose counts match its
    buckets: each count went up once for every value its bucket takes. *)
Lemma observe_all_spec values :
  forall h,
    buckets h <> [] ->
    length (counts h) = length (buckets h) ->
    (0 <= count h < 2 ^ 64)%Z ->
    exists h',
      observe_all h values = Some h' /\
      name h' = name h /\
      buckets h' = buckets h /\
      length (counts h') = length (buckets h) /\
      count h' = wrap64 (count h + Z.of_nat (length values)) /\
      (forall i bound c,
          buckets h !! i = Some bound -> counts h !! i = Some c ->
          counts h' !! i = Some (incremented (taken bound values) c)).
Proof.
  induction values as [ | v vs IH ]; intros h Hne Hwf Hrange; simpl.
  - exists h. repeat split; auto. unfold wrap64.
    rewrite Z.add_0_r. symmetry. now apply Z.mod_small.
  - destruct (Observe_spec h v Hne Hwf) as (cs' & -> & Hl & Hat).
    destruct (IH (mk (name h) (buckets h) cs' (wrap64 (count h + 1)) (sum h + v)))
      as (h' & Hrun & Hn & Hb & Hc & Hcount & Hhist); simpl; auto.
    { unfold wrap64. apply Z.mod_pos_bound. lia. }
    simpl in *. exists h'. repeat split; auto.
    + rewrite Hcount. unfold wrap64.
      rewrite Zplus_mod_idemp_l. f_equal. lia.
    + intros i bound c Hi Hc0.
      destruct (Hat i bound Hi) as (c' & Hc' & Hcs').
      assert (c' = c) by congruence. subst c'.
      rewrite (Hhist i bound _ Hi Hcs'), taken_cons.
      destruct (v <=? bound); [ apply f_equal, incremented_first | reflexivity ].
Qed.

Lemma lookup_repeat (x : float) n i :
  (i < n)%nat -> repeat x n !! i = Some x.
Proof.
  revert i. induction n as [ | n IH ]; intros [ | i ] Hi; simpl; try lia.
  - reflexivity.
  - apply IH. lia.
Qed.

Lemma NewHistogram_wf name boundaries :
  length (counts (NewHistogram name boundaries)) =
  length (buckets (NewHistogram name boundaries)).
Proof. simpl. apply repeat_length. Qed.

End HistogramFacts.

Section HistogramClaims.

Context `{Float64.Sort}.

Import HistogramMetric.
#[local] Open Scope float_scope.

(** C1.  A histogram constructed with a non-empty boundary list keeps the
    bounds sorted ascending (as they were given, when they were given
    ascending).  After any observations the total count (an
    [atomic.Uint64]) is their number and every bucket count stands at one
    increment per observed value [<=] its bound; a further [Observe value]
    succeeds and adds [value] to the running sum, adds 1 to the total
    count, leaves the bounds alone and increments the count of exactly the
    buckets whose bound is [>= value]; a value above the largest bound
    changes no bucket count.  With bounds 0.5, 1, 3, 5 and observations 0.3,
    0.6, 2, 10 the bucket counts are 1, 2, 3, 3, the count is 4 and the sum
    is 12.9. *)
Theorem C1_histogram_observe :
  (forall (name : string) (boundaries observed : list float) (value : float),
      boundaries <> [] ->
      exists h h',
        observe_all (NewHistogram name boundaries) observed = Some h /\
        Float64.ascending (Buckets h) /\
        (Float64.ascending boundaries -> Buckets h = boundaries) /\
        Count h = wrap64 (Z.of_nat (length observed)) /\
        (forall i bound, Buckets h !! i = Some bound ->
           counts h !! i = Some (incremented (taken bound observed) 0)) /\
        Observe h value = Some h' /\
        Sum h' = Sum h + value /\
        Count h' = wrap64 (Count h + 1) /\
        ((Z.of_nat (length observed) < 2 ^ 64 - 1)%Z ->
         Count h' = (Z.of_nat (length observed) + 1)%Z) /\
        Buckets h' = Buckets h /\
        length (counts h') = length (Buckets h) /\
        (forall i bound, Buckets h !! i = Some bound ->
           exists c, counts h !! i = Some c /\
             counts h' !! i = Some (if value <=? bound then c + 1 else c)) /\
        (forall bmax, last (Buckets h) = Some bmax -> (bmax <? value) = true ->
           Value h' = Value h))
  /\
  (exists h,
      observe_all (NewHistogram "h" [0.5; 1.0; 3.0; 5.0]) [0.3; 0.6; 2.0; 10.0]
        = Some h /\
      Buckets h = [0.5; 1.0; 3.0; 5.0] /\
      Value h = Float64Slice [1; 2; 3; 3] /\ Count h = 4%Z /\ Sum h = 12.9).
Proof.
  split.
  - intros name boundaries observed value Hne.
    pose (h0 := NewHistogram name boundaries).
    assert (Hb0 : buckets h0 <> []).
    { simpl. intros E. now apply Float64s_nil in E. }
    destruct (observe_all_spec observed h0 Hb0 (NewHistogram_wf _ _))
      as (h & Hrun & _ & Hb & Hl & Hcount & Hhist); [ simpl; lia | ].
    assert (Hbh : buckets h <> []) by now rewrite Hb.
    assert (Hwf : length (counts h) = length (buckets h)) by now rewrite Hb.
    destruct (Observe_spec h value Hbh Hwf) as (cs' & Hobs & Hl' & Hat).
    eexists h, _. split; [ exact Hrun | ].
    split; [ unfold Buckets; rewrite Hb; apply Float64s_ascending | ].
    split; [ intros Hs; unfold Buckets; rewrite Hb; now apply Float64s_ascending_id | ].
    split; [ exact Hcount | ].
    split.
    { intros i bound Hi. unfold Buckets in Hi. rewrite Hb in Hi.
      apply (Hhist i bound 0 Hi). simpl.
      apply lookup_lt_Some in Hi. apply lookup_repeat. exact Hi. }
    split; [ exact Hobs | ]. simpl.
    split; [ reflexivity | ]. split; [ reflexivity | ].
    split.
    { intros Hsmall. unfold Count. rewrite Hcount. simpl. unfold wrap64.
      rewrite Zplus_mod_idemp_l. apply Z.mod_small. lia. }
    repeat (split; [ first [ reflexivity | exact Hl' | exact Hat ] | ]).
    intros bmax Hlast Hv. unfold Value. simpl. f_equal.
    pose proof (above_last_above_all value (buckets h) bmax) as Hall.
    unfold Buckets in Hlast. rewrite Hb in Hall at 1.
    specialize (Hall (Float64s_ascending _) Hlast Hv).
    apply list_eq. intros i. destruct (buckets h !! i) as [b | ] eqn:Hi.
    + destruct (Hat i b Hi) as (c & Hc & ->).
      rewrite Forall_forall in Hall.
      rewrite (Hall b); [ now rewrite Hc | ].
      eapply list_elem_of_lookup_2; eauto.
    + apply lookup_ge_None in Hi.
      rewrite (proj2 (lookup_ge_None cs' i)) by lia.
      symmetry. apply lookup_ge_None. lia.
  - rewrite NewHistogram_short by (simpl; lia).
    eexists. split; [ vm_compute; reflexivity | ].
    repeat split.
Qed.

(** C3, as the code has it.  [Observe] on a histogram with no buckets
    returns at its guard: counts, total count and sum all stay as they
    were. *)
Theorem C3_observe_without_buckets (h : t) (value : float) :
  Buckets h = [] ->
  Observe h value = Some h.
Proof.
  unfold Buckets, Observe. intros ->. reflexivity.
Qed.

End HistogramClaims.

Section HistogramRuns.

Import HistogramMetric.
#[local] Open Scope float_scope.

(** C1 at the histogram of [TestHistogram], before any observation. *)
Lemma C1_histogram_observe_witness :
  [0.5; 1.0; 5.0; 3.0] <> [] /\
  exists h h',
    observe_all test_histogram [] = Some h /\
    Observe h 0.3 = Some h' /\
    Count h' = wrap64 (Count h + 1).
Proof.
  split; [ discriminate | ].
  destruct (proj1 C1_histogram_observe "test_histogram" [0.5; 1.0; 5.0; 3.0] [] 0.3
              ltac:(discriminate))
    as (h & h' & H1 & _ & _ & _ & _ & H2 & _ & H3 & _).
  exists h, h'. auto.
Defined.

Lemma C3_observe_without_buckets_witness :
  Buckets (NewHistogram "empty" []) = [] /\
  Observe (NewHistogram "empty" []) 2.5 = Some (NewHistogram "empty" []).
Proof.
  split; [ reflexivity | ].
  apply (C3_observe_without_buckets (NewHistogram "empty" []) 2.5).
  reflexivity.
Defined.

(** C3, as stated, fails: on a histogram constructed with no boundaries,
    [Observe 2.5] does not bring the count to 1 and the sum to 2.5. *)
Lemma C3_counterexample :
  ~ (exists h',
        Observe (NewHistogram "empty" []) 2.5 = Some h' /\
        counts h' = counts (NewHistogram "empty" []) /\
        Count h' = wrap64 (Count (NewHistogram "empty" []) + 1) /\
        Sum h' = Sum (NewHistogram "empty" []) + 2.5).
Proof.
  intros (h' & Hobs & _ & Hcount & _).
  vm_compute in Hobs. injection Hobs as <-.
  vm_compute in Hcount. discriminate.
Qed.

End HistogramRuns.

(** ** Summary *)

Section FloatMapFacts.

#[local] Open Scope float_scope.

Lemma get_set m k v k' :
  FloatMap.get (FloatMap.set m k v) k' =
  if k =? k' then Some v else FloatMap.get m k'.
Proof.
  induction m as [ | [k0 v0] m IH ]; simpl; [ reflexivity | ].
  destruct (k0 =? k) eqn:E0; simpl.
  - destruct (k =? k') eqn:E; [ reflexivity | ].
    now rewrite (feqb_left k0 k k' E0), E.
  - rewrite IH. destruct (k0 =? k') eqn:E1; [ | reflexivity ].
    destruct (k =? k') eqn:E; [ | reflexivity ].
    rewrite feqb_sym in E. rewrite (feqb_trans _ _ _ E1 E) in E0. discriminate.
Qed.

(** Keys that are [==] have the same rank: they differ at most in the
    sign of zero, which the conversion to [int] forgets. *)
Lemma int_mul_eqb `{Arch} q k n :
  (q =? k) = true -> Float64.int (q * n) = Float64.int (k * n).
Proof.
  rewrite FloatAxioms.eqb_spec. intros E.
  destruct (SFeqb_cases _ _ E) as [E' | (s & s' & Hq & Hk)].
  - apply Prim2SF_inj in E'. now subst.
  - assert (Hmul : forall x sx, Prim2SF x = S754_zero sx ->
              (exists sz, Prim2SF (x * n) = S754_zero sz) \/
              Prim2SF (x * n) = S754_nan).
    { intros x sx Hx. rewrite FloatAxioms.mul_spec, Hx. unfold SF64mul, SFmul.
      destruct (Prim2SF n); eauto. }
    unfold Float64.int, Float64.trunc.
    destruct (Hmul q s Hq) as [[sq Eq] | Eq], (Hmul k s' Hk) as [[sk Ek] | Ek];
      rewrite ?Eq, ?Ek; try reflexivity.
    + exfalso. revert Eq Ek. rewrite !FloatAxioms.mul_spec, Hq, Hk. unfold SF64mul, SFmul.
      destruct (Prim2SF n); discriminate.
    + exfalso. revert Eq Ek. rewrite !FloatAxioms.mul_spec, Hq, Hk. unfold SF64mul, SFmul.
      destruct (Prim2SF n); discriminate.
    + f_equal. apply Prim2SF_inj. congruence.
Qed.

End FloatMapFacts.

Section SummaryFacts.

Import SummaryMetric.
#[local] Open Scope float_scope.
Context `{Arch} `{Float64.Sort}.

Lemma clamp_is_min (index n : Z) :
  (if (index >=? n)%Z then (n - 1)%Z else index) = Z.min index (n - 1).
Proof. rewrite Z.geb_leb. destruct (Z.leb_spec n index); lia. Qed.

Lemma nearest_rank_eqb q k n :
  (q =? k) = true -> nearest_rank q n = nearest_rank k n.
Proof. intros E. unfold nearest_rank. now rewrite (int_mul_eqb q k _ E). Qed.

Lemma nearest_rank_lt q n : (nearest_rank q n < n)%Z.
Proof. unfold nearest_rank. lia. Qed.

(** The loop over the keys, when no key has a negative rank: it ends, and
    the result maps every key it visited to the sample at its rank. *)
Lemma quantiles_loop_spec sortedValues qs :
  forall acc,
    Forall (fun q => (0 <= nearest_rank q (len sortedValues))%Z) qs ->
    exists result,
      quantiles_loop qs sortedValues acc = Some result /\
      forall k,
        FloatMap.get result k =
        if existsb (fun q => q =? k) qs
        then sortedValues !! Z.to_nat (nearest_rank k (len sortedValues))
        else FloatMap.get acc k.
Proof.
  induction qs as [ | q qs IH ]; intros acc Hall; simpl.
  - eauto.
  - inversion Hall as [ | ? ? Hq Hqs ]; subst.
    rewrite clamp_is_min. fold (nearest_rank q (len sortedValues)).
    destruct (Z.ltb_spec (nearest_rank q (len sortedValues)) 0); [ lia | ].
    pose proof (nearest_rank_lt q (len sortedValues)) as Hlt.
    destruct (lookup_lt_is_Some_2 sortedValues
                (Z.to_nat (nearest_rank q (len sortedValues)))) as [v Hv].
    { unfold len in *. lia. }
    rewrite Hv.
    destruct (IH (FloatMap.set acc q v) Hqs) as (result & Hrun & Hget).
    exists result. split; [ exact Hrun | ].
    intros k. rewrite Hget, get_set.
    destruct (existsb (fun q0 => q0 =? k) qs); [ now rewrite orb_true_r | ].
    rewrite orb_false_r. destruct (q =? k) eqn:E; [ | reflexivity ].
    now rewrite <- (nearest_rank_eqb q k _ E).
Qed.

(** A key with a negative rank makes the loop panic. *)
Lemma quantiles_loop_panic sortedValues qs :
  forall acc,
    Exists (fun q => (nearest_rank q (len sortedValues) < 0)%Z) qs ->
    quantiles_loop qs sortedValues acc = None.
Proof.
  induction qs as [ | q qs IH ]; intros acc Hex; simpl.
  - inversion Hex.
  - rewrite clamp_is_min. fold (nearest_rank q (len sortedValues)).
    destruct (Z.ltb_spec (nearest_rank q (len sortedValues)) 0) as [ | Hge ];
      [ reflexivity | ].
    destruct (sortedValues !! _); [ | reflexivity ].
    apply IH. inversion Hex; subst; [ lia | assumption ].
Qed.

Lemma len_nil_iff (l : list float) : (len l =? 0)%Z = true <-> l = [].
Proof.
  unfold len. rewrite Z.eqb_eq. destruct l; simpl; split; auto; try lia.
  discriminate.
Qed.

Lemma Quantiles_nil s : values s = [] -> Quantiles s = Some [].
Proof.
  intros E. unfold Quantiles.
  now rewrite (proj2 (len_nil_iff (values s)) E).
Qed.

Lemma Quantiles_loop s :
  values s <> [] ->
  Quantiles s =
  quantiles_loop (FloatMap.keys (quantiles s)) (Float64.Float64s (values s)) [].
Proof.
  intros Hne. unfold Quantiles.
  destruct (len (values s) =? 0)%Z eqn:E; [ | reflexivity ].
  apply len_nil_iff in E. contradiction.
Qed.

Lemma len_Float64s l : len (Float64.Float64s l) = len l.
Proof. unfold len. now rewrite Float64s_length. Qed.

Lemma existsb_elem (k : float) qs :
  k ∈ qs -> (k =? k) = true -> existsb (fun q => q =? k) qs = true.
Proof.
  intros Hin Hk. apply existsb_exists. exists k.
  split; [ now apply list_elem_of_In | exact Hk ].
Qed.

End SummaryFacts.

(** ** The rank of a target between 0 and 1

    The rounding of the library's [float64] product, as far as the rank
    [int(q * float64(N))] needs it: bounds on the mantissa and the
    exponent of a rounded value. *)
Section Rounding.

#[local] Open Scope Z_scope.

Lemma digits_ub p : Z.pos p < 2 ^ Z.pos (digits2_pos p).
Proof.
  induction p as [ p IH | p IH | ]; simpl digits2_pos.
  - rewrite Pos2Z.inj_succ, Z.pow_succ_r by lia. lia.
  - rewrite Pos2Z.inj_succ, Z.pow_succ_r by lia. lia.
  - reflexivity.
Qed.

Lemma digits_lb p : 2 ^ (Z.pos (digits2_pos p) - 1) <= Z.pos p.
Proof.
  induction p as [ p IH | p IH | ]; simpl digits2_pos.
  - rewrite Pos2Z.inj_succ. replace (Z.succ (Z.pos (digits2_pos p)) - 1)
      with (Z.succ (Z.pos (digits2_pos p) - 1)) by lia.
    rewrite Z.pow_succ_r by lia. lia.
  - rewrite Pos2Z.inj_succ. replace (Z.succ (Z.pos (digits2_pos p)) - 1)
      with (Z.succ (Z.pos (digits2_pos p) - 1)) by lia.
    rewrite Z.pow_succ_r by lia. lia.
  - simpl. lia.
Qed.

(** A positive below [2 ^ k] has at most [k] digits. *)
Lemma digits_le p k : 0 <= k -> Z.pos p < 2 ^ k -> Z.pos (digits2_pos p) <= k.
Proof.
  intros Hk Hp. pose proof (digits_lb p) as Hlb.
  destruct (Z.le_gt_cases (Z.pos (digits2_pos p)) k) as [ | Hgt ]; [ assumption | ].
  exfalso.
  assert (2 ^ k <= 2 ^ (Z.pos (digits2_pos p) - 1)) by (apply Z.pow_le_mono_r; lia).
  lia.
Qed.

Lemma Zdigits2_le m k : 0 <= m -> 0 <= k -> m < 2 ^ k -> Zdigits2 m <= k.
Proof.
  intros Hm Hk Hlt. destruct m as [ | p | p ]; simpl; [ lia | | lia ].
  now apply digits_le.
Qed.

Lemma Zdigits2_ub m : 0 <= m -> m < 2 ^ Zdigits2 m.
Proof.
  intros Hm. destruct m as [ | p | p ]; simpl; [ lia | apply digits_ub | lia ].
Qed.

Lemma shr_1_m mrs : 0 <= shr_m mrs -> shr_m (shr_1 mrs) = shr_m mrs / 2.
Proof.
  destruct mrs as [m r s]. simpl. intros Hm.
  destruct m as [ | [ p | p | ] | p ]; cbn [shr_m]; try lia.
  - reflexivity.
  - apply (Z.div_unique_pos (Z.pos p~1) 2 (Z.pos p) 1); lia.
  - apply (Z.div_unique_pos (Z.pos p~0) 2 (Z.pos p) 0); lia.
  - reflexivity.
Qed.

Lemma iter_shr_1_m p :
  forall mrs, 0 <= shr_m mrs ->
              shr_m (SpecFloat.iter_pos shr_1 p mrs) = shr_m mrs / 2 ^ Z.pos p.
Proof.
  induction p as [ p IH | p IH | ]; intros mrs Hm; simpl SpecFloat.iter_pos.
  - assert (H1 : 0 <= shr_m (shr_1 mrs)).
    { rewrite shr_1_m by assumption. apply Z.div_pos; lia. }
    assert (H2 : 0 <= shr_m (SpecFloat.iter_pos shr_1 p (shr_1 mrs))).
    { rewrite IH by assumption. apply Z.div_pos; lia. }
    rewrite IH, IH, shr_1_m by assumption.
    rewrite !Z.div_div by lia. f_equal.
    replace (Z.pos p~1) with (1 + Z.pos p + Z.pos p) by lia.
    rewrite !Z.pow_add_r by lia. lia.
  - assert (H2 : 0 <= shr_m (SpecFloat.iter_pos shr_1 p mrs)).
    { rewrite IH by assumption. apply Z.div_pos; lia. }
    rewrite IH, IH by assumption.
    rewrite Z.div_div by lia. f_equal.
    replace (Z.pos p~0) with (Z.pos p + Z.pos p) by lia.
    rewrite Z.pow_add_r by lia. reflexivity.
  - rewrite shr_1_m by assumption. reflexivity.
Qed.

Lemma shr_record_of_loc_m m l : shr_m (shr_record_of_loc m l) = m.
Proof. now destruct l as [ | [ | | ] ]. Qed.

(** The first step of rounding: the mantissa fits in 53 bits afterwards and
    the exponent has gone up no further than that takes. *)
Lemma shr_fexp_bound m e l :
  0 <= m ->
  0 <= shr_m (fst (shr_fexp prec emax m e l)) < 2 ^ 53 /\
  snd (shr_fexp prec emax m e l) <= Z.max (Z.max e (Zdigits2 m + e - 53)) (- 1074).
Proof.
  intros Hm. unfold shr_fexp, shr.
  pose proof (Zdigits2_ub m Hm) as Hub.
  assert (Hd : 0 <= Zdigits2 m) by (destruct m; simpl; lia).
  assert (Hfexp : fexp prec emax (Zdigits2 m + e)
                  = Z.max (Zdigits2 m + e - 53) (- 1074)) by reflexivity.
  destruct (fexp prec emax (Zdigits2 m + e) - e) as [ | k | k ] eqn:Hk;
    cbn [fst snd]; rewrite ?shr_record_of_loc_m.
  - split; [ | lia ]. split; [ exact Hm | ].
    assert (Zdigits2 m <= 53) by lia.
    eapply Z.lt_le_trans; [ exact Hub | apply Z.pow_le_mono_r; lia ].
  - rewrite iter_shr_1_m by (rewrite shr_record_of_loc_m; exact Hm).
    rewrite shr_record_of_loc_m. split; [ | lia ].
    split; [ apply Z.div_pos; lia | ].
    apply Z.div_lt_upper_bound; [ lia | ].
    rewrite <- Z.pow_add_r by lia.
    eapply Z.lt_le_trans; [ exact Hub | apply Z.pow_le_mono_r; lia ].
  - split; [ | lia ]. split; [ exact Hm | ].
    assert (Zdigits2 m <= 53) by lia.
    eapply Z.lt_le_trans; [ exact Hub | apply Z.pow_le_mono_r; lia ].
Qed.

Lemma round_nearest_even_bound m l :
  m <= round_nearest_even m l <= m + 1.
Proof.
  unfold round_nearest_even. destruct l as [ | [ | | ] ]; try lia.
  destruct (Z.even m); lia.
Qed.

(** Rounding a positive mantissa gives zero or a finite float of the same
    sign whose exponent is bounded by the magnitude of the argument. *)
Lemma binary_round_aux_bound sx p ex E :
  Z.max (Z.max ex (Z.pos (digits2_pos p) + ex - 53)) (- 1074) + 1 <= E ->
  E <= 971 ->
  binary_round_aux prec emax sx (Z.pos p) ex loc_Exact = S754_zero sx \/
  exists m e,
    binary_round_aux prec emax sx (Z.pos p) ex loc_Exact = S754_finite sx m e /\
    e <= E.
Proof.
  intros HE HE'. unfold binary_round_aux.
  pose proof (shr_fexp_bound (Z.pos p) ex loc_Exact ltac:(lia)) as [Hm1 He1].
  destruct (shr_fexp prec emax (Z.pos p) ex loc_Exact) as [mrs1 e1].
  cbn [fst snd] in Hm1, He1. simpl Zdigits2 in He1.
  pose proof (round_nearest_even_bound (shr_m mrs1) (loc_of_shr_record mrs1)) as Hr.
  set (m1 := round_nearest_even (shr_m mrs1) (loc_of_shr_record mrs1)) in *.
  assert (Hm1' : 0 <= m1) by lia.
  pose proof (shr_fexp_bound m1 e1 loc_Exact Hm1') as [Hm2 He2].
  assert (Hd1 : Zdigits2 m1 <= 54).
  { apply Zdigits2_le; lia. }
  destruct (shr_fexp prec emax m1 e1 loc_Exact) as [mrs2 e2].
  cbn [fst snd] in Hm2, He2.
  destruct (shr_m mrs2) as [ | m | m ]; [ now left | | lia ].
  right. exists m, e2.
  assert (He2' : e2 <= E) by lia.
  replace (e2 <=? emax - prec) with true; [ auto | ].
  symmetry. apply Z.leb_le. change (emax - prec) with 971. lia.
Qed.

Lemma digits_mul p q :
  Z.pos (digits2_pos (p * q)) <= Z.pos (digits2_pos p) + Z.pos (digits2_pos q).
Proof.
  apply digits_le; [ lia | ].
  rewrite Z.pow_add_r by lia. rewrite Pos2Z.inj_mul.
  pose proof (digits_ub p). pose proof (digits_ub q). nia.
Qed.

Lemma digits_iter_xO d :
  forall m, Z.pos (digits2_pos (Pos.iter xO m d)) = Z.pos (digits2_pos m) + Z.pos d.
Proof.
  induction d as [ | d IH ] using Pos.peano_ind; intros m.
  - simpl. lia.
  - rewrite Pos.iter_succ. simpl digits2_pos. rewrite Pos2Z.inj_succ, IH. lia.
Qed.

Lemma shl_align_bound mx ex ex' :
  snd (shl_align mx ex ex') <= ex /\
  Z.pos (digits2_pos (fst (shl_align mx ex ex'))) + snd (shl_align mx ex ex')
  = Z.pos (digits2_pos mx) + ex.
Proof.
  unfold shl_align. destruct (ex' - ex) as [ | d | d ] eqn:E; cbn [fst snd];
    try (split; lia).
  rewrite digits_iter_xO. lia.
Qed.

(** The mantissa of a float has at most 53 bits. *)
Lemma Prim2SF_mantissa x s m e :
  Prim2SF x = S754_finite s m e -> Z.pos m < 2 ^ 53.
Proof.
  intros Hx. pose proof (Prim2SF_valid x) as Hv. rewrite Hx in Hv.
  simpl in Hv. unfold bounded, canonical_mantissa in Hv.
  apply andb_prop in Hv. destruct Hv as [Hc _]. apply Z.eqb_eq in Hc.
  assert (Hf : fexp prec emax (Z.pos (digits2_pos m) + e)
               = Z.max (Z.pos (digits2_pos m) + e - 53) (- 1074)) by reflexivity.
  pose proof (digits_ub m) as Hub.
  eapply Z.lt_le_trans; [ exact Hub | apply Z.pow_le_mono_r; lia ].
Qed.

End Rounding.

Section Rank.

#[local] Open Scope float_scope.

(** [float64(N)] for a length [N] is zero or positive, with a small
    exponent. *)
Lemma float64_len (N : Z) :
  (0 <= N < 2 ^ 60)%Z ->
  Prim2SF (Float64.float64 N) = S754_zero false \/
  exists m e, Prim2SF (Float64.float64 N) = S754_finite false m e /\ (e <= 8)%Z.
Proof.
  intros HN. unfold Float64.float64.
  destruct (Z.ltb_spec N 0) as [ | _ ]; [ lia | ].
  rewrite FloatAxioms.of_uint63_spec, Uint63.of_Z_spec.
  rewrite Z.mod_small by (change wB with (2 ^ 63)%Z; lia).
  destruct N as [ | p | p ]; [ now left | | lia ].
  unfold binary_normalize, binary_round.
  pose proof (shl_align_bound p 0 (fexp prec emax (Z.pos (digits2_pos p) + 0)))
    as [Hez Hd].
  destruct (shl_align p 0 (fexp prec emax (Z.pos (digits2_pos p) + 0))) as [mz ez].
  cbn [fst snd] in Hez, Hd.
  assert (Hp : (Z.pos (digits2_pos p) <= 60)%Z) by (apply digits_le; lia).
  destruct (binary_round_aux_bound false mz ez 8) as [Hz | (m & e & Hf & He)];
    try lia; eauto.
Qed.

(** A target between 0 and 1 is a zero, or positive with exponent at most
    -52. *)
Lemma unit_interval_float (q : float) :
  (0 <=? q) = true -> (q <=? 1) = true ->
  (exists s, Prim2SF q = S754_zero s) \/
  exists m e, Prim2SF q = S754_finite false m e /\ (e <= - 52)%Z.
Proof.
  rewrite !FloatAxioms.leb_spec.
  change (Prim2SF 0) with (S754_zero false).
  change (Prim2SF 1) with (S754_finite false 4503599627370496 (- 52)).
  pose proof (Prim2SF_mantissa q) as Hm.
  destruct (Prim2SF q) as [ s | s | | s m e ]; intros H0 H1.
  - left. eauto.
  - destruct s; discriminate.
  - discriminate.
  - right. destruct s; [ discriminate | ].
    exists m, e. split; [ reflexivity | ].
    specialize (Hm false m e eq_refl).
    unfold SFleb, SFcompare in H1.
    destruct (Z.compare_spec e (- 52)) as [ -> | Hlt | Hgt ];
      [ lia | lia | discriminate ].
Qed.

(** The product [q * float64(N)] of a target between 0 and 1 and a length
    is a zero, or positive and below [2^63]. *)
Lemma rank_product (q : float) (N : Z) :
  (0 <=? q) = true -> (q <=? 1) = true -> (0 <= N < 2 ^ 60)%Z ->
  (exists s, Prim2SF (q * Float64.float64 N) = S754_zero s) \/
  exists m e, Prim2SF (q * Float64.float64 N) = S754_finite false m e /\ (e <= 10)%Z.
Proof.
  intros H0 H1 HN. rewrite FloatAxioms.mul_spec.
  pose proof (Prim2SF_mantissa q) as Hmq.
  pose proof (Prim2SF_mantissa (Float64.float64 N)) as Hmn.
  destruct (unit_interval_float q H0 H1) as [(s & Hq) | (mq & eq & Hq & Heq)];
    destruct (float64_len N HN) as [Hn | (mn & en & Hn & Hen)];
    rewrite Hq, Hn in *; try (left; simpl; eauto; fail).
  specialize (Hmq _ _ _ eq_refl). specialize (Hmn _ _ _ eq_refl).
  assert (Hdq : (Z.pos (digits2_pos mq) <= 53)%Z) by (apply digits_le; lia).
  assert (Hdn : (Z.pos (digits2_pos mn) <= 53)%Z) by (apply digits_le; lia).
  pose proof (digits_mul mq mn) as Hd.
  cbn [SFmul xorb].
  destruct (binary_round_aux_bound false (mq * mn) (eq + en) 10)
    as [Hz | (m & e & Hf & He)]; try lia; eauto.
Qed.

Lemma shiftl_bound m e :
  (Z.pos m < 2 ^ 53)%Z -> (e <= 10)%Z -> (0 <= Z.shiftl (Z.pos m) e < 2 ^ 63)%Z.
Proof.
  intros Hm He. destruct (Z.le_gt_cases 0 e) as [Hpos | Hneg].
  - rewrite Z.shiftl_mul_pow2 by assumption.
    assert (Hp : (0 < 2 ^ e <= 2 ^ 10)%Z).
    { split; [ apply Z.pow_pos_nonneg; lia | apply Z.pow_le_mono_r; lia ]. }
    change (2 ^ 63)%Z with (2 ^ 53 * 2 ^ 10)%Z. nia.
  - rewrite Z.shiftl_div_pow2 by lia.
    assert (Hp : (0 < 2 ^ (- e))%Z) by (apply Z.pow_pos_nonneg; lia).
    split; [ apply Z.div_pos; lia | ].
    apply Z.div_lt_upper_bound; [ exact Hp | ]. nia.
Qed.

(** The rank of a target between 0 and 1 is a valid index on every
    platform: the conversion [int(q * float64(N))] is in range and not
    negative.  [N] is the length of a [[]float64], which holds fewer than
    [2^60] elements of 8 bytes. *)
Lemma nearest_rank_unit `{Arch} (q : float) (N : Z) :
  (0 <=? q) = true -> (q <=? 1) = true -> (0 < N < 2 ^ 60)%Z ->
  (0 <= SummaryMetric.nearest_rank q N < N)%Z.
Proof.
  intros H0 H1 HN. unfold SummaryMetric.nearest_rank.
  enough (0 <= Float64.int (q * Float64.float64 N))%Z by lia.
  unfold Float64.int, Float64.trunc.
  pose proof (Prim2SF_mantissa (q * Float64.float64 N)) as Hm.
  destruct (rank_product q N H0 H1 ltac:(lia)) as [(s & ->) | (m & e & Hf & He)].
  - reflexivity.
  - rewrite Hf in *. specialize (Hm _ _ _ eq_refl).
    pose proof (shiftl_bound m e Hm He) as Hb. cbv zeta.
    destruct (Z.leb_spec (- 2 ^ 63) (Z.shiftl (Z.pos m) e)); [ | lia ].
    destruct (Z.ltb_spec (Z.shiftl (Z.pos m) e) (2 ^ 63)); [ | lia ].
    simpl andb. lia.
Qed.

End Rank.

Section SummaryClaims.

Import SummaryMetric.
#[local] Open Scope float_scope.
Context `{Arch} `{Float64.Sort}.

(** C2.  With no retained sample [Quantiles] returns the empty map.  With
    [N > 0] samples it works on a sorted copy of them (a permutation of the
    samples in ascending order, as [sort.Float64s] leaves it; the summary
    itself is not written), and, the ranks [int(q * float64(N))] of the
    configured quantiles being valid indices or above, it returns a map
    that sends every configured quantile [q] to the sorted sample at that
    rank, or at [N - 1] when the rank is [>= N].  The ranks are valid
    whenever every configured quantile is between 0 and 1: then
    [Quantiles] returns, on every platform, and every quantile is sent to
    the sorted sample at its rank, an index in [0, N).  For the targets 0.5
    and 0.9 and the observations 5, 3, 1, 4, 2 it returns 3 for 0.5 and 5
    for 0.9. *)
Theorem C2_summary_quantiles :
  (forall s, values s = [] -> Quantiles s = Some FloatMap.make)
  /\
  (forall s,
      values s <> [] ->
      let sortedValues := Float64.Float64s (values s) in
      let N := len (values s) in
      Permutation (values s) sortedValues /\
      Float64.ascending sortedValues /\
      (Forall (fun q => (0 <= nearest_rank q N)%Z) (FloatMap.keys (quantiles s)) ->
       exists result,
         Quantiles s = Some result /\
         forall q,
           q ∈ FloatMap.keys (quantiles s) -> (q =? q) = true ->
           exists v,
             sortedValues !! Z.to_nat (nearest_rank q N) = Some v /\
             FloatMap.get result q = Some v))
  /\
  (exists result,
      Quantiles (fold_left Observe [5; 3; 1; 4; 2]
                   (NewSummary "s" [(0.5, 0.05); (0.9, 0.01)])) = Some result /\
      FloatMap.get result 0.5 = Some 3 /\
      FloatMap.get result 0.9 = Some 5)
  /\
  (forall s,
      values s <> [] ->
      (len (values s) < 2 ^ 60)%Z ->
      Forall (fun q => (0 <=? q) = true /\ (q <=? 1) = true)
        (FloatMap.keys (quantiles s)) ->
      let sortedValues := Float64.Float64s (values s) in
      let N := len (values s) in
      exists result,
        Quantiles s = Some result /\
        forall q,
          q ∈ FloatMap.keys (quantiles s) ->
          (0 <= nearest_rank q N < N)%Z /\
          exists v,
            sortedValues !! Z.to_nat (nearest_rank q N) = Some v /\
            FloatMap.get result q = Some v).
Proof.
  assert (Hgen : forall s,
             values s <> [] ->
             Forall (fun q => (0 <= nearest_rank q (len (values s)))%Z)
               (FloatMap.keys (quantiles s)) ->
             exists result,
               Quantiles s = Some result /\
               forall q,
                 q ∈ FloatMap.keys (quantiles s) -> (q =? q) = true ->
                 exists v,
                   Float64.Float64s (values s)
                     !! Z.to_nat (nearest_rank q (len (values s))) = Some v /\
                   FloatMap.get result q = Some v).
  { intros s Hne Hranks. rewrite (Quantiles_loop s Hne).
    rewrite <- len_Float64s in Hranks |- *.
    destruct (quantiles_loop_spec _ _ [] Hranks) as (result & Hrun & Hget).
    exists result. split; [ exact Hrun | ].
    intros q Hin Hq. rewrite Hget, (existsb_elem q _ Hin Hq).
    rewrite Forall_forall in Hranks. specialize (Hranks q Hin).
    pose proof (nearest_rank_lt q (len (Float64.Float64s (values s)))) as Hlt.
    destruct (lookup_lt_is_Some_2 (Float64.Float64s (values s))
                (Z.to_nat (nearest_rank q (len (Float64.Float64s (values s))))))
      as [v Hv]; [ unfold len in *; lia | ].
    exists v. now rewrite Hv. }
  split; [ exact Quantiles_nil | split; [ | split ] ].
  - intros s Hne sortedValues N.
    split; [ apply Float64s_perm | ]. split; [ apply Float64s_ascending | ].
    exact (Hgen s Hne).
  - rewrite Quantiles_short by (simpl; lia).
    eexists. split; [ vm_compute; reflexivity | ]. split; reflexivity.
  - intros s Hne Hlen Hkeys sortedValues N.
    assert (HN : (0 < N < 2 ^ 60)%Z).
    { subst N. unfold len in *. destruct (values s); [ congruence | ].
      simpl length in *. lia. }
    assert (Hranks : Forall (fun q => (0 <= nearest_rank q N < N)%Z)
                       (FloatMap.keys (quantiles s))).
    { eapply Forall_impl; [ exact Hkeys | ]. simpl. intros q [Hq0 Hq1].
      now apply nearest_rank_unit. }
    destruct (Hgen s Hne) as (result & Hrun & Hget).
    { eapply Forall_impl; [ exact Hranks | ]. simpl. intros q Hq. apply Hq. }
    exists result. split; [ exact Hrun | ].
    intros q Hin. rewrite Forall_forall in Hranks, Hkeys.
    split; [ exact (Hranks q Hin) | ].
    apply Hget; [ exact Hin | ].
    destruct (Hkeys q Hin) as [Hq0 _].
    rewrite FloatAxioms.leb_spec in Hq0. rewrite FloatAxioms.eqb_spec.
    change (Prim2SF 0) with (S754_zero false) in Hq0.
    destruct (Prim2SF q) as [ [ | ] | [ | ] | | [ | ] m e ];
      try discriminate; try reflexivity.
    unfold SFeqb, SFcompare. now rewrite Z.compare_refl, Pos.compare_refl.
Qed.

(** C6.  Whatever was called before, [Reset] brings a counter's [Value]
    to 0, and brings a summary's [Count] and [Sum] to 0 and its retained
    samples to none, so that [Quantiles] then returns the empty map. *)
Theorem C6_reset :
  (forall (c : CounterMetric.t) (calls : list CounterMetric.call),
      CounterMetric.Value
        (CounterMetric.Reset (fold_left CounterMetric.exec calls c)) = Uint64 0)
  /\
  (forall (s : t) (calls : list call),
      let s' := Reset (fold_left exec calls s) in
      Count s' = 0%Z /\ Sum s' = 0 /\ Value s' = Float64Slice [] /\
      Quantiles s' = Some FloatMap.make).
Proof.
  split.
  - intros c calls. reflexivity.
  - intros s calls s'. repeat split.
Qed.

End SummaryClaims.

Lemma C2_summary_quantiles_witness :
  SummaryMetric.values test_summary <> [] /\
  Permutation (SummaryMetric.values test_summary)
    (Float64.Float64s (SummaryMetric.values test_summary)) /\
  (exists result,
    @SummaryMetric.Quantiles amd64 insertion_sort test_summary = Some result /\
    exists v, FloatMap.get result 0.9%float = Some v) /\
  (SummaryMetric.len (SummaryMetric.values test_summary) < 2 ^ 60)%Z /\
  Forall (fun q => (0 <=? q)%float = true /\ (q <=? 1)%float = true)
    (FloatMap.keys (SummaryMetric.quantiles test_summary)) /\
  exists result,
    @SummaryMetric.Quantiles amd64 insertion_sort test_summary = Some result /\
    (0 <= @SummaryMetric.nearest_rank amd64 0.5%float
            (SummaryMetric.len (SummaryMetric.values test_summary))
       < SummaryMetric.len (SummaryMetric.values test_summary))%Z.
Proof.
  assert (Hne : SummaryMetric.values test_summary <> []) by discriminate.
  assert (Hlen : (SummaryMetric.len (SummaryMetric.values test_summary) < 2 ^ 60)%Z)
    by (vm_compute; reflexivity).
  assert (Hkeys : Forall (fun q => (0 <=? q)%float = true /\ (q <=? 1)%float = true)
                    (FloatMap.keys (SummaryMetric.quantiles test_summary))).
  { repeat constructor. }
  split; [ exact Hne | ].
  destruct (proj1 (proj2 (@C2_summary_quantiles amd64 insertion_sort)) test_summary Hne)
    as (Hperm & _ & Hq).
  split; [ exact Hperm | ].
  split.
  { destruct Hq as (result & Hrun & Hget).
    { repeat constructor; vm_compute; intro; discriminate. }
    exists result. split; [ exact Hrun | ].
    destruct (Hget 0.9%float) as (v & _ & Hv).
    { vm_compute. right. left. }
    { reflexivity. }
    exists v. exact Hv. }
  split; [ exact Hlen | ]. split; [ exact Hkeys | ].
  destruct (proj2 (proj2 (proj2 (@C2_summary_quantiles amd64 insertion_sort)))
              test_summary Hne Hlen Hkeys) as (result & Hrun & Hget).
  exists result. split; [ exact Hrun | ].
  destruct (Hget 0.5%float) as [Hr _]; [ vm_compute; left | exact Hr ].
Defined.

Section ToleranceClaims.

Import SummaryMetric.
#[local] Open Scope float_scope.
Context `{Arch} `{Float64.Sort}.

Lemma exec_all_fields calls :
  forall s,
    quantiles (fold_left exec calls s) = quantiles s /\
    forall s', values s' = values s ->
               values (fold_left exec calls s') = values (fold_left exec calls s).
Proof.
  induction calls as [ | k calls IH ]; intros s; simpl; [ auto | ].
  destruct (IH (exec s k)) as [Hq Hv]. split.
  - rewrite Hq. now destruct k.
  - intros s' E. apply Hv. destruct k; simpl; [ now rewrite E | reflexivity ].
Qed.

Lemma existsb_perm (f : float -> bool) l1 l2 :
  Permutation l1 l2 -> existsb f l1 = existsb f l2.
Proof.
  induction 1 as [ | x l1 l2 _ IH | x y l | l1 l2 l3 _ IH1 _ IH2 ]; simpl.
  - reflexivity.
  - now rewrite IH.
  - now rewrite !orb_assoc, (orb_comm (f y)).
  - now rewrite IH1.
Qed.

(** [Quantiles] of two summaries with the same samples and the same keys
    up to the iteration order. *)
Lemma Quantiles_perm s1 s2 :
  values s1 = values s2 ->
  Permutation (FloatMap.keys (quantiles s1)) (FloatMap.keys (quantiles s2)) ->
  option_Forall2 FloatMap.agree (Quantiles s1) (Quantiles s2).
Proof.
  intros Hv Hk. destruct (values s1) as [ | v vs ] eqn:E1.
  - rewrite (Quantiles_nil s1 E1), (Quantiles_nil s2 (eq_sym Hv)).
    constructor. intros k. reflexivity.
  - rewrite (Quantiles_loop s1), (Quantiles_loop s2) by congruence.
    rewrite <- Hv, E1.
    set (sortedValues := Float64.Float64s (v :: vs)).
    destruct (decide (Forall (fun q => (0 <= nearest_rank q (len sortedValues))%Z)
                        (FloatMap.keys (quantiles s1)))) as [Hall | Hnot].
    + destruct (quantiles_loop_spec sortedValues _ [] Hall) as (r1 & -> & Hg1).
      rewrite Hk in Hall.
      destruct (quantiles_loop_spec sortedValues _ [] Hall) as (r2 & -> & Hg2).
      constructor. intros k. now rewrite Hg1, Hg2, (existsb_perm _ _ _ Hk).
    + apply not_Forall_Exists in Hnot; [ | intros q; apply _ ].
      assert (Hex : Exists (fun q => (nearest_rank q (len sortedValues) < 0)%Z)
                      (FloatMap.keys (quantiles s1))).
      { eapply Exists_impl; [ exact Hnot | ]. simpl. intros q Hq. lia. }
      rewrite (quantiles_loop_panic sortedValues _ [] Hex).
      rewrite Hk in Hex.
      rewrite (quantiles_loop_panic sortedValues _ [] Hex).
      constructor.
Qed.

(** C8.  Two summaries constructed with target maps that have the same
    quantile keys, whatever their tolerances, and then given the same
    calls, return the same from [Quantiles]: the very same result when the
    keys are visited in the same order, and in any case results that agree
    on every lookup (or the same panic). *)
Theorem C8_quantiles_ignore_tolerance
    (name1 name2 : string) (targets1 targets2 : FloatMap.t) (calls : list call) :
  let s1 := fold_left exec calls (NewSummary name1 targets1) in
  let s2 := fold_left exec calls (NewSummary name2 targets2) in
  (FloatMap.keys targets1 = FloatMap.keys targets2 ->
   Quantiles s1 = Quantiles s2)
  /\
  (Permutation (FloatMap.keys targets1) (FloatMap.keys targets2) ->
   option_Forall2 FloatMap.agree (Quantiles s1) (Quantiles s2)).
Proof.
  intros s1 s2.
  destruct (exec_all_fields calls (NewSummary name1 targets1)) as [Hq1 Hv1].
  destruct (exec_all_fields calls (NewSummary name2 targets2)) as [Hq2 _].
  assert (Hv : values s1 = values s2).
  { symmetry. apply Hv1. reflexivity. }
  change (quantiles s1 = targets1) in Hq1.
  change (quantiles s2 = targets2) in Hq2.
  split.
  - intros Hk. unfold Quantiles. now rewrite Hv, Hq1, Hq2, Hk.
  - intros Hk. apply Quantiles_perm; [ exact Hv | ]. now rewrite Hq1, Hq2.
Qed.

End ToleranceClaims.

Lemma C8_quantiles_ignore_tolerance_witness :
  @SummaryMetric.Quantiles amd64 insertion_sort
    (fold_left SummaryMetric.exec
       [SummaryMetric.CallObserve 5; SummaryMetric.CallObserve 3;
        SummaryMetric.CallObserve 1]%float
       (NewSummary "a" [(0.5, 0.05); (0.9, 0.01)]%float)) =
  @SummaryMetric.Quantiles amd64 insertion_sort
    (fold_left SummaryMetric.exec
       [SummaryMetric.CallObserve 5; SummaryMetric.CallObserve 3;
        SummaryMetric.CallObserve 1]%float
       (NewSummary "b" [(0.5, 0.3); (0.9, 0.7)]%float)).
Proof.
  apply (proj1 (@C8_quantiles_ignore_tolerance amd64 insertion_sort "a" "b"
                  [(0.5, 0.05); (0.9, 0.01)]%float [(0.5, 0.3); (0.9, 0.7)]%float
                  [SummaryMetric.CallObserve 5; SummaryMetric.CallObserve 3;
                   SummaryMetric.CallObserve 1]%float)).
  reflexivity.
Defined.

(** ** Collector *)

Section CollectorFacts.

Import Collector.
Implicit Types (c : Collector.t) (st : store) (m : Metric).

Lemma read_map_Some st l (mp : gmap string Metric) :
  maps st !! l = Some mp -> read_map st l = mp.
Proof. unfold read_map. now intros ->. Qed.

(** What one [Register] does, on a collector whose map is allocated. *)
Lemma Register_spec c m st name (mp : gmap string Metric) :
  Name st m = Some name ->
  maps st !! metrics c = Some mp ->
  Register c m st =
  Some (match mp !! name with
        | Some _ => st
        | None => mkStore (objects st) (<[metrics c := <[name := m]> mp]> (maps st))
        end).
Proof.
  intros Hn Hm. unfold Register. rewrite Hn. simpl. rewrite Hm.
  now destruct (mp !! name).
Qed.

Lemma Register_inv c m st st' :
  Register c m st = Some st' ->
  exists name mp, Name st m = Some name /\ maps st !! metrics c = Some mp.
Proof.
  unfold Register. destruct (Name st m) as [name | ]; simpl; [ | discriminate ].
  destruct (maps st !! metrics c) as [mp | ]; [ | discriminate ].
  eauto.
Qed.

(** What a sequence of registrations does: it writes to the collector's
    map only, keeps every entry that was there, and adds the new names. *)
Lemma register_all_spec c ms :
  forall st st' (mp : gmap string Metric),
    register_all c ms st = Some st' ->
    maps st !! metrics c = Some mp ->
    exists mp' : gmap string Metric,
      objects st' = objects st /\
      maps st' = <[metrics c := mp']> (maps st) /\
      mp ⊆ mp' /\
      dom mp' = dom mp ∪ list_to_set (omap (Name st) ms).
Proof.
  induction ms as [ | m ms IH ]; intros st st' mp Hrun Hmp; simpl in *.
  - injection Hrun as <-. exists mp. repeat split; auto.
    + now rewrite insert_id.
    + now rewrite ?list_to_set_nil, (right_id_L ∅ (∪)).
  - destruct (Register c m st) as [st1 | ] eqn:Hreg; [ | discriminate ].
    destruct (Register_inv _ _ _ _ Hreg) as (name & mp0 & Hn & Hmp0).
    assert (mp0 = mp) by congruence. subst mp0.
    rewrite (Register_spec c m st name mp Hn Hmp) in Hreg.
    injection Hreg as Hst1. rewrite Hn. simpl.
    destruct (mp !! name) as [m0 | ] eqn:Hlk; subst st1.
    + destruct (IH st st' mp Hrun Hmp) as (mp' & Ho & Hm & Hsub & Hdom).
      exists mp'. repeat split; auto.
      rewrite Hdom, ?list_to_set_cons, (assoc_L (∪)).
      apply elem_of_dom_2 in Hlk. f_equal.
      symmetry. rewrite (comm_L (∪)).
      apply subseteq_union_1_L. now apply singleton_subseteq_l.
    + destruct (IH _ st' (<[name := m]> mp) Hrun) as (mp' & Ho & Hm & Hsub & Hdom).
      { simpl. apply lookup_insert_eq. }
      simpl in *. exists mp'. repeat split; auto.
      * now rewrite Hm, insert_insert_eq.
      * etransitivity; [ | exact Hsub ]. now apply insert_subseteq.
      * rewrite Hdom, dom_insert_L, ?list_to_set_cons, !(assoc_L (∪)).
        f_equal. apply (comm_L (∪)).
Qed.

(** Registrations succeed when every metric has an object and the
    collector's map is allocated. *)
Lemma register_all_Some c ms :
  forall st,
    is_Some (maps st !! metrics c) ->
    Forall (fun m => is_Some (objects st !! m)) ms ->
    is_Some (register_all c ms st).
Proof.
  induction ms as [ | m ms IH ]; intros st [mp Hmp] Hall; simpl; [ eauto | ].
  inversion Hall as [ | ? ? [o Ho] Hms ]; subst.
  rewrite (Register_spec c m st (object_Name o) mp);
    [ | unfold Name; now rewrite Ho | exact Hmp ].
  destruct (mp !! object_Name o); apply IH; eauto; simpl.
  rewrite lookup_insert_eq. eauto.
Qed.

Lemma new_addr_unused (used : gset addr) : new_addr used ∉ used.
Proof.
  unfold new_addr. intros Hin.
  apply (is_fresh ({[nil_addr]} ∪ used)). apply elem_of_union. now right.
Qed.

Lemma new_addr_not_nil (used : gset addr) : new_addr used <> nil_addr.
Proof.
  unfold new_addr. intros E.
  apply (is_fresh ({[nil_addr]} ∪ used)). apply elem_of_union. left.
  rewrite E. now apply elem_of_singleton.
Qed.

(** The copy loop of [Metrics] copies. *)
Lemma copy_loop (src : gmap string Metric) :
  map_fold (fun k m (acc : gmap string Metric) => <[k := m]> acc) ∅ src = src.
Proof.
  apply (map_fold_weak_ind (M := gmap string)
           (fun (r : gmap string Metric) (m : gmap string Metric) => r = m));
    [ reflexivity | ].
  intros i x m r _ ->. reflexivity.
Qed.

Lemma Metrics_spec c st :
  let snapshot := fst (Metrics c st) in
  let st' := snd (Metrics c st) in
  maps st !! snapshot = None /\
  objects st' = objects st /\
  maps st' = <[snapshot := read_map st (metrics c)]> (maps st).
Proof.
  simpl. rewrite copy_loop. split; [ | auto ].
  apply not_elem_of_dom. apply new_addr_unused.
Qed.

End CollectorFacts.

Section CollectorClaims.

Import Collector.

Lemma Get_Some_map c name st m0 :
  Get c name st = Some m0 ->
  exists mp : gmap string Metric,
    maps st !! metrics c = Some mp /\ mp !! name = Some m0.
Proof.
  unfold Get, read_map. destruct (maps st !! metrics c) as [mp | ]; simpl.
  - eauto.
  - rewrite lookup_empty. discriminate.
Qed.

(** C5.  In any registry state: [Register] of a metric whose name is
    present returns normally and changes nothing; an entry, once made, is
    what [Get] returns after any later registrations; and of two instances
    registered under one free name, the first is the one [Get] returns,
    the second registration being a no-op. *)
Theorem C5_first_registration_wins (c : Collector.t) (st : store) (name : string) :
  (forall m m0,
      Name st m = Some name -> Get c name st = Some m0 ->
      Register c m st = Some st)
  /\
  (forall m0 ms st',
      Get c name st = Some m0 -> register_all c ms st = Some st' ->
      Get c name st' = Some m0)
  /\
  (forall first second,
      is_Some (maps st !! metrics c) ->
      Name st first = Some name -> Name st second = Some name ->
      Get c name st = None ->
      exists st1,
        Register c first st = Some st1 /\
        Get c name st1 = Some first /\
        Register c second st1 = Some st1).
Proof.
  split; [ | split ].
  - intros m m0 Hn Hget.
    destruct (Get_Some_map _ _ _ _ Hget) as (mp & Hmp & Hlk).
    now rewrite (Register_spec c m st name mp Hn Hmp), Hlk.
  - intros m0 ms st' Hget Hrun.
    destruct (Get_Some_map _ _ _ _ Hget) as (mp & Hmp & Hlk).
    destruct (register_all_spec c ms st st' mp Hrun Hmp) as (mp' & _ & Hm & Hsub & _).
    unfold Get. rewrite (read_map_Some st' (metrics c) mp').
    + eapply lookup_weaken; eauto.
    + rewrite Hm. apply lookup_insert_eq.
  - intros first second [mp Hmp] Hn1 Hn2 Hget.
    unfold Get in Hget. rewrite (read_map_Some _ _ _ Hmp) in Hget.
    rewrite (Register_spec c first st name mp Hn1 Hmp), Hget.
    set (st1 := mkStore (objects st) (<[metrics c := <[name := first]> mp]> (maps st))).
    exists st1. split; [ reflexivity | ].
    assert (Hmp1 : maps st1 !! metrics c = Some (<[name := first]> mp))
      by (simpl; apply lookup_insert_eq).
    split.
    + unfold Get. rewrite (read_map_Some st1 _ _ Hmp1). apply lookup_insert_eq.
    + change (Name st1 second = Some name) in Hn2.
      rewrite (Register_spec c second st1 name _ Hn2 Hmp1).
      now rewrite lookup_insert_eq.
Qed.

End CollectorClaims.

Lemma C5_first_registration_wins_witness :
  Name test_store test_first = Some "collector_counter" /\
  Name test_store test_second = Some "collector_counter" /\
  test_first <> test_second /\
  exists st1,
    Collector.Register test_collector test_first test_store = Some st1 /\
    Collector.Get test_collector "collector_counter" st1 = Some test_first /\
    Collector.Register test_collector test_second st1 = Some st1.
Proof.
  split; [ reflexivity | ]. split; [ reflexivity | ].
  split; [ discriminate | ].
  apply (proj2 (proj2 (C5_first_registration_wins test_collector test_store
                         "collector_counter"))).
  - vm_compute. eauto.
  - reflexivity.
  - reflexivity.
  - reflexivity.
Defined.

Section SnapshotClaims.

Import Collector.

Lemma size_names (names : list string) :
  size (list_to_set names : gset string) = length (remove_dups names).
Proof.
  rewrite <- (size_list_to_set (C := gset string) (remove_dups names))
    by apply NoDup_remove_dups.
  f_equal. apply set_eq. intros x.
  now rewrite !elem_of_list_to_set, elem_of_remove_dups.
Qed.

Lemma Metrics_read c st :
  read_map (snd (Metrics c st)) (fst (Metrics c st)) = read_map st (metrics c).
Proof.
  destruct (Metrics_spec c st) as (_ & _ & Hm).
  apply read_map_Some. rewrite Hm. apply lookup_insert_eq.
Qed.

(** The names in the snapshot of a new collector after registrations. *)
Lemma snapshot_names st0 ms :
  Forall (fun m => is_Some (objects st0 !! m)) ms ->
  exists st1,
    register_all (fst (NewCollector st0)) ms (snd (NewCollector st0)) = Some st1 /\
    dom (read_map (snd (Metrics (fst (NewCollector st0)) st1))
                  (fst (Metrics (fst (NewCollector st0)) st1)))
    = (list_to_set (omap (Name st0) ms) : gset string).
Proof.
  intros Hall.
  set (c := fst (NewCollector st0)). set (st := snd (NewCollector st0)).
  assert (Hmp : maps st !! metrics c = Some ∅) by (simpl; apply lookup_insert_eq).
  destruct (register_all_Some c ms st) as [st1 Hrun]; [ eauto | exact Hall | ].
  exists st1. split; [ exact Hrun | ].
  destruct (register_all_spec c ms st st1 ∅ Hrun Hmp) as (mp' & _ & Hm & _ & Hdom).
  rewrite Metrics_read, (read_map_Some st1 (metrics c) mp').
  - rewrite Hdom, dom_empty_L, (left_id_L ∅ (∪)). reflexivity.
  - rewrite Hm. apply lookup_insert_eq.
Qed.

(** C7.  [Metrics] returns a map of its own: a new address, holding the
    entries of the registry's map (the same [Metric] references, to the
    same objects), and no later registration changes it.  After
    registrations into a new collector its size is the number of distinct
    names registered, in whatever order they were registered. *)
Theorem C7_metrics_snapshot :
  (forall (c : Collector.t) (st : store),
      is_Some (maps st !! metrics c) ->
      let snapshot := fst (Metrics c st) in
      let st1 := snd (Metrics c st) in
      snapshot <> metrics c /\
      read_map st1 snapshot = read_map st (metrics c) /\
      read_map st1 (metrics c) = read_map st (metrics c) /\
      objects st1 = objects st /\
      (forall ms st2,
          register_all c ms st1 = Some st2 ->
          read_map st2 snapshot = read_map st1 snapshot))
  /\
  (forall (st0 : store) (ms : list Metric),
      Forall (fun m => is_Some (objects st0 !! m)) ms ->
      let c := fst (NewCollector st0) in
      let st := snd (NewCollector st0) in
      exists st1,
        register_all c ms st = Some st1 /\
        size (read_map (snd (Metrics c st1)) (fst (Metrics c st1)))
        = length (remove_dups (omap (Name st0) ms)) /\
        (forall ms', Permutation ms ms' ->
           exists st1',
             register_all c ms' st = Some st1' /\
             size (read_map (snd (Metrics c st1')) (fst (Metrics c st1')))
             = size (read_map (snd (Metrics c st1)) (fst (Metrics c st1))))).
Proof.
  split.
  - intros c st [mp Hmp] snapshot st1.
    destruct (Metrics_spec c st) as (Hfresh & Ho & Hm).
    fold snapshot st1 in Hfresh, Ho, Hm.
    assert (Hne : snapshot <> metrics c) by congruence.
    assert (Hlive : maps st1 !! metrics c = Some mp).
    { rewrite Hm, lookup_insert_ne by exact Hne. exact Hmp. }
    split; [ exact Hne | ]. split; [ apply Metrics_read | ].
    split; [ now rewrite (read_map_Some _ _ _ Hlive), (read_map_Some _ _ _ Hmp) | ].
    split; [ exact Ho | ].
    intros ms st2 Hrun.
    destruct (register_all_spec c ms st1 st2 mp Hrun Hlive) as (mp' & _ & Hm2 & _).
    unfold read_map. rewrite Hm2, lookup_insert_ne by congruence. reflexivity.
  - intros st0 ms Hall c st.
    destruct (snapshot_names st0 ms Hall) as (st1 & Hrun & Hdom).
    exists st1. split; [ exact Hrun | ].
    fold c in Hdom. split.
    + rewrite <- size_dom, Hdom. apply size_names.
    + intros ms' Hperm.
      destruct (snapshot_names st0 ms') as (st1' & Hrun' & Hdom').
      { now rewrite <- Hperm. }
      exists st1'. split; [ exact Hrun' | ].
      fold c in Hdom'. rewrite <- !(size_dom (D := gset string)), Hdom, Hdom'.
      now rewrite Hperm.
Qed.

End SnapshotClaims.

Lemma C7_metrics_snapshot_witness :
  is_Some (maps test_store !! Collector.metrics test_collector) /\
  fst (Collector.Metrics test_collector test_store) <> Collector.metrics test_collector /\
  Forall (fun m => is_Some (objects test_store !! m)) [test_first; test_second] /\
  exists st1,
    Collector.register_all (fst (NewCollector test_store)) [test_first; test_second]
      (snd (NewCollector test_store)) = Some st1 /\
    size (read_map (snd (Collector.Metrics (fst (NewCollector test_store)) st1))
            (fst (Collector.Metrics (fst (NewCollector test_store)) st1))) = 1%nat.
Proof.
  assert (H1 : is_Some (maps test_store !! Collector.metrics test_collector))
    by (vm_compute; eauto).
  assert (H2 : Forall (fun m => is_Some (objects test_store !! m))
                 [test_first; test_second])
    by (repeat constructor; vm_compute; eauto).
  split; [ exact H1 | ].
  split; [ exact (proj1 (proj1 C7_metrics_snapshot test_collector test_store H1)) | ].
  split; [ exact H2 | ].
  destruct (proj2 C7_metrics_snapshot test_store [test_first; test_second] H2)
    as (st1 & Hrun & Hsize & _).
  exists st1. split; [ exact Hrun | exact Hsize ].
Defined.

(** ** Reporter loop *)

(** C4, as the code has it.  A tick of a started loop hands [Report] the
    address of the global collector's own map, [globalCollector.metrics],
    not a copy made by [Metrics()].  In the run of [ReporterRun] the map the reporter was
    handed gains the member "queue" when a gauge is registered after
    [Report] has returned, where the snapshot [Metrics()] would have given
    at the tick is another map and does not. *)
Theorem C4_reporter_hands_live_map :
  (forall (interval : Z) (r : Recorder) (st : store),
      0 < interval ->
      exists l,
        StartReporter interval r = Some l /\
        Loop.step Loop.tick l st
        = Some (Loop.mk (Collector.metrics globalCollector :: r) true, st))
  /\
  (exists handed st queue_st,
      ReporterRun.after_tick = Some ([handed], st) /\
      handed = Collector.metrics globalCollector /\
      read_map st handed !! "queue" = None /\
      ReporterRun.register_queue st = Some queue_st /\
      read_map queue_st handed !! "queue" = Some (ReporterRun.queue st))
  /\
  (exists snapshot st queue_st,
      ReporterRun.snapshot_at_tick = Some (snapshot, st) /\
      snapshot <> Collector.metrics globalCollector /\
      ReporterRun.register_queue st = Some queue_st /\
      read_map queue_st snapshot !! "queue" = None).
Proof.
  split; [ | split ].
  - intros interval r st Hpos. exists (Loop.mk r true).
    unfold StartReporter. rewrite (proj2 (Z.ltb_lt 0 interval) Hpos).
    split; reflexivity.
  - do 3 eexists.
    split; [ vm_compute; reflexivity | ].
    split; [ reflexivity | ].
    split; [ reflexivity | ].
    split; [ vm_compute; reflexivity | ].
    reflexivity.
  - do 3 eexists.
    split; [ vm_compute; reflexivity | ].
    split; [ discriminate | ].
    split; [ vm_compute; reflexivity | ].
    reflexivity.
Qed.

(** * Further properties of metrics.go *)

(** ** Counter and gauge *)

Section CounterGaugeFacts.

Lemma wrap64_add_l a b : wrap64 (wrap64 a + b) = wrap64 (a + b).
Proof. unfold wrap64. now rewrite Zplus_mod_idemp_l. Qed.

Lemma wrap_int64_add_l a b : wrap_int64 (wrap_int64 a + b) = wrap_int64 (a + b).
Proof.
  unfold wrap_int64. f_equal.
  replace ((a + 2 ^ 63) mod 2 ^ 64 - 2 ^ 63 + b + 2 ^ 63)
    with ((a + 2 ^ 63) mod 2 ^ 64 + b) by lia.
  rewrite Zplus_mod_idemp_l. f_equal. lia.
Qed.

Lemma wrap_int64_add_r a b : wrap_int64 (a + wrap_int64 b) = wrap_int64 (a + b).
Proof. now rewrite Z.add_comm, wrap_int64_add_l, Z.add_comm. Qed.

Lemma wrap_int64_small z : GaugeMetric.is_int64 z -> wrap_int64 z = z.
Proof.
  unfold GaugeMetric.is_int64, wrap_int64. intros Hz.
  rewrite Z.mod_small; lia.
Qed.

Lemma wrap_int64_range z : GaugeMetric.is_int64 (wrap_int64 z).
Proof.
  unfold GaugeMetric.is_int64, wrap_int64.
  pose proof (Z.mod_pos_bound (z + 2 ^ 63) (2 ^ 64) ltac:(lia)). lia.
Qed.

Lemma counter_history calls :
  forall c acc,
    CounterMetric.value c = wrap64 acc ->
    CounterMetric.value (fold_left CounterMetric.exec calls c)
    = wrap64 (fold_left (fun acc k =>
                           match k with
                           | CounterMetric.CallInc => acc + 1
                           | CounterMetric.CallAdd delta => acc + delta
                           | CounterMetric.CallReset => 0
                           end) calls acc).
Proof.
  induction calls as [ | k calls IH ]; intros c acc Hc; simpl; [ exact Hc | ].
  apply IH. destruct k; simpl; rewrite ?Hc, ?wrap64_add_l; reflexivity.
Qed.

Lemma counter_name calls :
  forall c,
    CounterMetric.Name (fold_left CounterMetric.exec calls c) = CounterMetric.Name c.
Proof.
  induction calls as [ | k calls IH ]; intros c; simpl; [ reflexivity | ].
  rewrite IH. now destruct k.
Qed.

Lemma gauge_history calls :
  forall g acc,
    Forall GaugeMetric.well_typed calls ->
    GaugeMetric.value g = wrap_int64 acc ->
    GaugeMetric.value (fold_left GaugeMetric.exec calls g)
    = wrap_int64 (fold_left (fun acc k =>
                               match k with
                               | GaugeMetric.CallSet value => value
                               | GaugeMetric.CallAdd delta => acc + delta
                               | GaugeMetric.CallSub delta => acc - delta
                               end) calls acc).
Proof.
  induction calls as [ | k calls IH ]; intros g acc Hall Hg; simpl; [ exact Hg | ].
  inversion Hall as [ | ? ? Hk Hcalls ]; subst.
  apply IH; [ exact Hcalls | ].
  destruct k; simpl in *.
  - symmetry. now apply wrap_int64_small.
  - now rewrite Hg, wrap_int64_add_l.
  - now rewrite Hg, wrap_int64_add_l, wrap_int64_add_r.
Qed.

End CounterGaugeFacts.

(** X1.  A counter's [Value] is the sum of the increments made since the
    last [Reset] (each [Inc] counting 1), reduced modulo 2^64; it is that
    sum itself as long as the sum stays below 2^64. *)
Theorem X1_counter_value_is_total (name : string) (calls : list CounterMetric.call) :
  let c := fold_left CounterMetric.exec calls (NewCounter name) in
  CounterMetric.Name c = name /\
  CounterMetric.Value c = Uint64 (wrap64 (CounterMetric.total calls)) /\
  (0 <= CounterMetric.total calls < 2 ^ 64 ->
   CounterMetric.Value c = Uint64 (CounterMetric.total calls)).
Proof.
  intros c.
  assert (Hv : CounterMetric.value c = wrap64 (CounterMetric.total calls)).
  { apply counter_history. reflexivity. }
  split; [ | split ].
  - apply counter_name.
  - unfold CounterMetric.Value. now rewrite Hv.
  - intros Hsmall. unfold CounterMetric.Value. rewrite Hv. f_equal.
    now apply Z.mod_small.
Qed.

Lemma X1_counter_value_is_total_witness :
  0 <= CounterMetric.total
         [CounterMetric.CallInc; CounterMetric.CallReset; CounterMetric.CallAdd 5;
          CounterMetric.CallInc] < 2 ^ 64 /\
  CounterMetric.Value
    (fold_left CounterMetric.exec
       [CounterMetric.CallInc; CounterMetric.CallReset; CounterMetric.CallAdd 5;
        CounterMetric.CallInc] (NewCounter "test_counter")) = Uint64 6.
Proof.
  assert (H : 0 <= CounterMetric.total
                     [CounterMetric.CallInc; CounterMetric.CallReset;
                      CounterMetric.CallAdd 5; CounterMetric.CallInc] < 2 ^ 64)
    by (vm_compute; split; [ intro; discriminate | reflexivity ]).
  split; [ exact H | ].
  exact (proj2 (proj2 (X1_counter_value_is_total "test_counter"
                         [CounterMetric.CallInc; CounterMetric.CallReset;
                          CounterMetric.CallAdd 5; CounterMetric.CallInc])) H).
Defined.

(** X2.  A gauge's [Value] is always an [int64]: the last value set (0 at
    first) plus the deltas added and minus the deltas subtracted since, in
    two's complement; it is that integer itself when it fits in an
    [int64]. *)
Theorem X2_gauge_value_is_net (name : string) (calls : list GaugeMetric.call) :
  Forall GaugeMetric.well_typed calls ->
  let g := fold_left GaugeMetric.exec calls (NewGauge name) in
  GaugeMetric.Value g = Int64 (wrap_int64 (GaugeMetric.net calls)) /\
  GaugeMetric.is_int64 (GaugeMetric.value g) /\
  (GaugeMetric.is_int64 (GaugeMetric.net calls) ->
   GaugeMetric.Value g = Int64 (GaugeMetric.net calls)).
Proof.
  intros Hall g.
  assert (Hv : GaugeMetric.value g = wrap_int64 (GaugeMetric.net calls)).
  { apply gauge_history; [ exact Hall | reflexivity ]. }
  unfold GaugeMetric.Value. rewrite Hv.
  split; [ reflexivity | ]. split; [ apply wrap_int64_range | ].
  intros Hfit. now rewrite wrap_int64_small.
Qed.

Lemma X2_gauge_value_is_net_witness :
  Forall GaugeMetric.well_typed
    [GaugeMetric.CallSet 10; GaugeMetric.CallAdd 5; GaugeMetric.CallSub 3] /\
  GaugeMetric.Value
    (fold_left GaugeMetric.exec
       [GaugeMetric.CallSet 10; GaugeMetric.CallAdd 5; GaugeMetric.CallSub 3]
       (NewGauge "test_gauge")) = Int64 12.
Proof.
  assert (H : Forall GaugeMetric.well_typed
                [GaugeMetric.CallSet 10; GaugeMetric.CallAdd 5; GaugeMetric.CallSub 3])
    by (repeat constructor; vm_compute; intro; discriminate).
  split; [ exact H | ].
  exact (proj1 (X2_gauge_value_is_net "test_gauge"
                  [GaugeMetric.CallSet 10; GaugeMetric.CallAdd 5; GaugeMetric.CallSub 3]
                  H)).
Defined.

(** X3.  On a gauge holding an [int64], [Sub delta] undoes [Add delta] and
    [Add delta] undoes [Sub delta], for every [delta], the most negative
    [int64] included, and whether or not the intermediate value wrapped. *)
Theorem X3_gauge_add_sub_cancel (g : GaugeMetric.t) (delta : Z) :
  GaugeMetric.is_int64 (GaugeMetric.value g) ->
  GaugeMetric.Sub (GaugeMetric.Add g delta) delta = g /\
  GaugeMetric.Add (GaugeMetric.Sub g delta) delta = g.
Proof.
  intros Hg. destruct g as [name value]. unfold GaugeMetric.Sub, GaugeMetric.Add.
  simpl in *. split; f_equal.
  - rewrite wrap_int64_add_l, wrap_int64_add_r.
    replace (value + delta + - delta) with value by lia.
    now apply wrap_int64_small.
  - rewrite wrap_int64_add_l.
    replace (value + wrap_int64 (- delta) + delta)
      with (value + delta + wrap_int64 (- delta)) by lia.
    rewrite wrap_int64_add_r.
    replace (value + delta + - delta) with value by lia.
    now apply wrap_int64_small.
Qed.

Lemma X3_gauge_add_sub_cancel_witness :
  GaugeMetric.is_int64 (GaugeMetric.value (GaugeMetric.mk "g" (2 ^ 63 - 1))) /\
  GaugeMetric.Sub (GaugeMetric.Add (GaugeMetric.mk "g" (2 ^ 63 - 1)) (- 2 ^ 63)) (- 2 ^ 63)
  = GaugeMetric.mk "g" (2 ^ 63 - 1).
Proof.
  assert (H : GaugeMetric.is_int64 (GaugeMetric.value (GaugeMetric.mk "g" (2 ^ 63 - 1))))
    by (vm_compute; split; [ intro; discriminate | reflexivity ]).
  split; [ exact H | ].
  exact (proj1 (X3_gauge_add_sub_cancel (GaugeMetric.mk "g" (2 ^ 63 - 1)) (- 2 ^ 63) H)).
Defined.

(** ** Histogram histories *)

Section NaNFacts.

#[local] Open Scope float_scope.

Lemma SFeqb_refl_nan x : SFeqb x x = false -> x = S754_nan.
Proof.
  unfold SFeqb. destruct x as [ s | s | | s m e ]; cbn; try discriminate;
    try reflexivity.
  - destruct s; discriminate.
  - change (PosDef.Pos.compare_cont Eq) with Pos.compare.
    rewrite Z.compare_refl, Pos.compare_refl. destruct s; discriminate.
Qed.

Lemma is_nan_spec x : is_nan x = true <-> Prim2SF x = S754_nan.
Proof.
  unfold is_nan. rewrite FloatAxioms.eqb_spec. split.
  - intros E. apply SFeqb_refl_nan. now destruct (SFeqb _ _).
  - intros ->. reflexivity.
Qed.

Lemma nan_add_l x y : is_nan x = true -> is_nan (x + y) = true.
Proof.
  rewrite !is_nan_spec, FloatAxioms.add_spec. intros ->. reflexivity.
Qed.

Lemma nan_add_r x y : is_nan y = true -> is_nan (x + y) = true.
Proof.
  rewrite !is_nan_spec, FloatAxioms.add_spec. intros ->.
  unfold SF64add, SFadd. now destruct (Prim2SF x).
Qed.

Lemma nan_not_leb v b : is_nan v = true -> (v <=? b) = false.
Proof.
  rewrite is_nan_spec, FloatAxioms.leb_spec. intros ->. reflexivity.
Qed.

Lemma leb_not_nan_r v b : is_nan b = true -> (v <=? b) = false.
Proof.
  rewrite is_nan_spec, FloatAxioms.leb_spec. intros ->.
  unfold SFleb, SFcompare. now destruct (Prim2SF v).
Qed.

End NaNFacts.

Section HistogramHistory.

Context `{Float64.Sort}.

Import HistogramMetric.
#[local] Open Scope float_scope.

Lemma observe_all_empty values :
  forall h, buckets h = [] -> observe_all h values = Some h.
Proof.
  induction values as [ | v vs IH ]; intros h Hb; simpl; [ reflexivity | ].
  unfold Observe. rewrite Hb. simpl. now apply IH.
Qed.

Lemma observe_all_sum values :
  forall h h',
    buckets h <> [] ->
    length (counts h) = length (buckets h) ->
    observe_all h values = Some h' ->
    sum h' = fold_left PrimFloat.add values (sum h).
Proof.
  induction values as [ | v vs IH ]; intros h h' Hne Hwf Hrun; simpl in *.
  - now injection Hrun as <-.
  - destruct (Observe_spec h v Hne Hwf) as (cs' & Hobs & Hl & _).
    rewrite Hobs in Hrun. apply IH in Hrun; simpl; auto.
Qed.

(** A later bucket takes every value an earlier one takes. *)
Lemma taken_mono a b values :
  Float64.Less b a = false -> (taken a values <= taken b values)%nat.
Proof.
  intros Hab. unfold taken.
  induction values as [ | v vs IH ]; simpl; [ lia | ].
  destruct (v <=? b) eqn:Hb.
  - destruct (v <=? a); simpl; lia.
  - rewrite (leb_below a b v Hab Hb). exact IH.
Qed.

Lemma taken_le_length b values : (taken b values <= length values)%nat.
Proof. unfold taken. apply List.filter_length_le. Qed.

Lemma taken_perm b values values' :
  Permutation values values' -> taken b values = taken b values'.
Proof.
  unfold taken.
  induction 1 as [ | x l1 l2 _ IH | x y l | l1 l2 l3 _ IH1 _ IH2 ]; simpl.
  - reflexivity.
  - destruct (x <=? b); simpl; now rewrite IH.
  - destruct (x <=? b), (y <=? b); reflexivity.
  - now rewrite IH1.
Qed.

Lemma taken_app b values values' :
  taken b (values ++ values') = (taken b values + taken b values')%nat.
Proof. unfold taken. now rewrite List.filter_app, length_app. Qed.

(** Everything [observe_all] leaves in a constructed histogram. *)
Lemma histogram_history name boundaries observed :
  boundaries <> [] ->
  exists h,
    observe_all (NewHistogram name boundaries) observed = Some h /\
    HistogramMetric.name h = name /\
    buckets h = Float64.Float64s boundaries /\
    length (counts h) = length boundaries /\
    count h = wrap64 (Z.of_nat (length observed)) /\
    sum h = fold_left PrimFloat.add observed 0 /\
    (forall i b, Float64.Float64s boundaries !! i = Some b ->
       counts h !! i = Some (incremented (taken b observed) 0)).
Proof.
  intros Hne. pose (h0 := NewHistogram name boundaries).
  assert (Hb0 : buckets h0 <> []).
  { simpl. intros E. now apply Float64s_nil in E. }
  destruct (observe_all_spec observed h0 Hb0 (NewHistogram_wf _ _))
    as (h & Hrun & Hn & Hb & Hl & Hcount & Hhist); [ simpl; lia | ].
  exists h. split; [ exact Hrun | ]. split; [ exact Hn | ].
  split; [ exact Hb | ].
  split; [ rewrite Hl; apply Float64s_length | ].
  split; [ exact Hcount | ].
  split; [ exact (observe_all_sum observed h0 h Hb0 (NewHistogram_wf _ _) Hrun) | ].
  intros i b Hi. apply (Hhist i b 0 Hi). simpl.
  apply lookup_repeat. now apply lookup_lt_Some in Hi.
Qed.

End HistogramHistory.

Section HistogramExtras.

Context `{Float64.Sort}.

Import HistogramMetric.
#[local] Open Scope float_scope.

(** In an ascending slice an earlier element is never above a later one. *)
Lemma ascending_lookup (l : list float) :
  Float64.ascending l ->
  forall i j a b,
    (i < j)%nat -> l !! i = Some a -> l !! j = Some b ->
    Float64.Less b a = false.
Proof.
  intros Hs. apply Sorted_StronglySorted in Hs; [ | apply not_Less_trans ].
  induction Hs as [ | x l Hs IH Hall ]; intros i j a b Hij Hi Hj.
  - discriminate.
  - destruct j as [ | j ]; [ lia | ]. simpl in Hj.
    destruct i as [ | i ]; simpl in Hi.
    + injection Hi as <-. rewrite Forall_forall in Hall.
      apply Hall. eapply list_elem_of_lookup_2; eauto.
    + apply (IH i j); auto. lia.
Qed.

(** X4.  [NewHistogram] sorts the bounds it is given: whatever is observed
    afterwards, [Buckets] returns an ascending permutation of the
    constructor's argument, which sorting again leaves as it is, and
    [Value] holds exactly one count per bound. *)
Theorem X4_histogram_buckets_sorted
    (name : string) (boundaries observed : list float) :
  exists h,
    observe_all (NewHistogram name boundaries) observed = Some h /\
    Permutation boundaries (Buckets h) /\
    Float64.ascending (Buckets h) /\
    Float64.Float64s (Buckets h) = Buckets h /\
    exists cs, Value h = Float64Slice cs /\ length cs = length boundaries.
Proof.
  destruct boundaries as [ | b bs ].
  - rewrite (NewHistogram_short name []) by (simpl; lia).
    exists (@NewHistogram insertion_sort name []).
    split; [ now apply observe_all_empty | ].
    split; [ reflexivity | ]. split; [ constructor | ].
    split; [ apply Float64s_ascending_id; constructor | ].
    exists []. split; reflexivity.
  - destruct (histogram_history name (b :: bs) observed ltac:(discriminate))
      as (h & Hrun & _ & Hb & Hl & _).
    exists h. split; [ exact Hrun | ]. unfold Buckets. rewrite Hb.
    split; [ apply Float64s_perm | ]. split; [ apply Float64s_ascending | ].
    split; [ apply Float64s_ascending_id, Float64s_ascending | ].
    exists (counts h). split; [ reflexivity | exact Hl ].
Qed.

(** X5.  On a histogram with at least one bound, [Sum] is the float64 sum
    of all observed values, added left to right from 0 in the order they were
    observed, and [Count] is their number modulo 2^64. *)
Theorem X5_histogram_sum_count
    (name : string) (boundaries observed : list float) :
  boundaries <> [] ->
  exists h,
    observe_all (NewHistogram name boundaries) observed = Some h /\
    Sum h = fold_left PrimFloat.add observed 0 /\
    Count h = wrap64 (Z.of_nat (length observed)).
Proof.
  intros Hne.
  destruct (histogram_history name boundaries observed Hne)
    as (h & Hrun & _ & _ & _ & Hcount & Hsum & _).
  exists h. auto.
Qed.

(** X6.  The bucket counts are cumulative: of two buckets, the one later in
    [Buckets] has been incremented at least as often as the earlier one, and
    no bucket more often than there were observations. *)
Theorem X6_histogram_counts_cumulative
    (name : string) (boundaries observed : list float)
    (i j : nat) (bi bj : float) :
  Float64.Float64s boundaries !! i = Some bi ->
  Float64.Float64s boundaries !! j = Some bj ->
  (i <= j)%nat ->
  exists h ni nj,
    observe_all (NewHistogram name boundaries) observed = Some h /\
    Buckets h !! i = Some bi /\ Buckets h !! j = Some bj /\
    counts h !! i = Some (incremented ni 0) /\
    counts h !! j = Some (incremented nj 0) /\
    (ni <= nj <= length observed)%nat.
Proof.
  intros Hi Hj Hij.
  assert (Hne : boundaries <> [])
    by (intros ->; rewrite Float64s_empty in Hi; discriminate).
  destruct (histogram_history name boundaries observed Hne)
    as (h & Hrun & _ & Hb & _ & _ & _ & Hhist).
  exists h, (taken bi observed), (taken bj observed).
  split; [ exact Hrun | ]. unfold Buckets. rewrite Hb.
  split; [ exact Hi | ]. split; [ exact Hj | ].
  split; [ now apply Hhist | ]. split; [ now apply Hhist | ].
  split; [ | apply taken_le_length ].
  destruct (decide (i = j)) as [-> | Hneq].
  - assert (bi = bj) by congruence. subst. lia.
  - apply taken_mono.
    apply (ascending_lookup _ (Float64s_ascending boundaries) i j); auto. lia.
Qed.

End HistogramExtras.

Section HistogramOrder.

Context `{Float64.Sort}.

Import HistogramMetric.
#[local] Open Scope float_scope.

(** X7.  The bucket counts, the bounds and [Count] of a histogram do not
    depend on the order in which the values were observed. *)
Theorem X7_histogram_counts_order_free
    (name : string) (boundaries observed observed' : list float) :
  Permutation observed observed' ->
  exists h h',
    observe_all (NewHistogram name boundaries) observed = Some h /\
    observe_all (NewHistogram name boundaries) observed' = Some h' /\
    Value h = Value h' /\ Buckets h = Buckets h' /\ Count h = Count h'.
Proof.
  intros Hperm. destruct boundaries as [ | b bs ].
  - rewrite (NewHistogram_short name []) by (simpl; lia).
    exists (@NewHistogram insertion_sort name []), (@NewHistogram insertion_sort name []).
    split; [ now apply observe_all_empty | ].
    split; [ now apply observe_all_empty | ]. auto.
  - destruct (histogram_history name (b :: bs) observed ltac:(discriminate))
      as (h & Hrun & _ & Hb & Hl & Hcount & _ & Hhist).
    destruct (histogram_history name (b :: bs) observed' ltac:(discriminate))
      as (h' & Hrun' & _ & Hb' & Hl' & Hcount' & _ & Hhist').
    exists h, h'. split; [ exact Hrun | ]. split; [ exact Hrun' | ].
    split; [ | split ].
    + unfold Value. f_equal. apply list_eq. intros i.
      destruct (Float64.Float64s (b :: bs) !! i) as [bound | ] eqn:Hi.
      * rewrite (Hhist i bound Hi), (Hhist' i bound Hi).
        now rewrite (taken_perm bound _ _ Hperm).
      * apply lookup_ge_None in Hi. rewrite Float64s_length in Hi.
        rewrite (proj2 (lookup_ge_None (counts h) i)) by lia.
        symmetry. apply lookup_ge_None. lia.
    + unfold Buckets. congruence.
    + unfold Count. rewrite Hcount, Hcount'.
      now rewrite (Permutation_length Hperm).
Qed.

(** X8.  A NaN observation is counted but falls in no bucket, and from then
    on [Sum] is NaN, whatever else is observed. *)
Theorem X8_histogram_nan_observation
    (name : string) (boundaries before after : list float) (value : float) :
  boundaries <> [] ->
  is_nan value = true ->
  exists h h',
    observe_all (NewHistogram name boundaries) (before ++ value :: after) = Some h /\
    observe_all (NewHistogram name boundaries) (before ++ after) = Some h' /\
    Value h = Value h' /\
    Count h = wrap64 (Count h' + 1) /\
    is_nan (Sum h) = true.
Proof.
  intros Hne Hnan.
  destruct (histogram_history name boundaries (before ++ value :: after) Hne)
    as (h & Hrun & _ & Hb & Hl & Hcount & Hsum & Hhist).
  destruct (histogram_history name boundaries (before ++ after) Hne)
    as (h' & Hrun' & _ & Hb' & Hl' & Hcount' & _ & Hhist').
  exists h, h'. split; [ exact Hrun | ]. split; [ exact Hrun' | ].
  split; [ | split ].
  - unfold Value. f_equal. apply list_eq. intros i.
    destruct (Float64.Float64s boundaries !! i) as [bound | ] eqn:Hi.
    + rewrite (Hhist i bound Hi), (Hhist' i bound Hi).
      rewrite !taken_app, taken_cons, (nan_not_leb value bound Hnan).
      reflexivity.
    + apply lookup_ge_None in Hi. rewrite Float64s_length in Hi.
      rewrite (proj2 (lookup_ge_None (counts h) i)) by lia.
      symmetry. apply lookup_ge_None. lia.
  - unfold Count. rewrite Hcount, Hcount', wrap64_add_l.
    f_equal. rewrite !length_app. simpl. lia.
  - unfold Sum. rewrite Hsum, fold_left_app. simpl.
    generalize (fold_left PrimFloat.add before 0). intros acc.
    assert (Hacc : is_nan (acc + value) = true) by now apply nan_add_r.
    revert Hacc. generalize (acc + value). clear.
    induction after as [ | v vs IH ]; intros acc Hacc; simpl; [ exact Hacc | ].
    apply IH. now apply nan_add_l.
Qed.

End HistogramOrder.

Lemma X5_histogram_sum_count_witness :
  [0.5; 1.0; 5.0; 3.0]%float <> [] /\
  exists h,
    HistogramMetric.observe_all test_histogram [0.3; 0.6; 2.0; 10.0]%float = Some h /\
    HistogramMetric.Sum h = 12.9%float /\ HistogramMetric.Count h = 4.
Proof.
  split; [ discriminate | ].
  exact (X5_histogram_sum_count "test_histogram" [0.5; 1.0; 5.0; 3.0]%float
           [0.3; 0.6; 2.0; 10.0]%float ltac:(discriminate)).
Defined.

Lemma X6_histogram_counts_cumulative_witness :
  Float64.Float64s [0.5; 1.0; 5.0; 3.0]%float !! 1%nat = Some 1%float /\
  Float64.Float64s [0.5; 1.0; 5.0; 3.0]%float !! 2%nat = Some 3%float /\
  exists h ni nj,
    HistogramMetric.observe_all test_histogram [0.3; 0.6; 2.0; 10.0]%float = Some h /\
    HistogramMetric.counts h !! 1%nat = Some (HistogramMetric.incremented ni 0) /\
    HistogramMetric.counts h !! 2%nat = Some (HistogramMetric.incremented nj 0) /\
    (ni <= nj <= 4)%nat.
Proof.
  split; [ reflexivity | ]. split; [ reflexivity | ].
  destruct (@X6_histogram_counts_cumulative insertion_sort "test_histogram"
              [0.5; 1.0; 5.0; 3.0]%float [0.3; 0.6; 2.0; 10.0]%float
              1 2 1%float 3%float ltac:(vm_compute; reflexivity)
              ltac:(vm_compute; reflexivity) ltac:(lia))
    as (h & ni & nj & Hrun & _ & _ & Hi & Hj & Hle).
  exists h, ni, nj. auto.
Defined.

Lemma X7_histogram_counts_order_free_witness :
  Permutation [0.3; 10.0]%float [10.0; 0.3]%float /\
  exists h h',
    HistogramMetric.observe_all test_histogram [0.3; 10.0]%float = Some h /\
    HistogramMetric.observe_all test_histogram [10.0; 0.3]%float = Some h' /\
    HistogramMetric.Value h = HistogramMetric.Value h'.
Proof.
  assert (H : Permutation [0.3; 10.0]%float [10.0; 0.3]%float) by apply perm_swap.
  split; [ exact H | ].
  destruct (X7_histogram_counts_order_free "test_histogram"
              [0.5; 1.0; 5.0; 3.0]%float _ _ H) as (h & h' & H1 & H2 & H3 & _).
  exists h, h'. auto.
Defined.

Lemma X8_histogram_nan_observation_witness :
  [1.0]%float <> [] /\ is_nan nan = true /\
  exists h,
    HistogramMetric.observe_all (NewHistogram "h" [1.0]%float)
      ([0.5] ++ nan :: [0.7])%float = Some h /\
    is_nan (HistogramMetric.Sum h) = true.
Proof.
  split; [ discriminate | ]. split; [ reflexivity | ].
  destruct (X8_histogram_nan_observation "h" [1.0]%float [0.5]%float [0.7]%float nan
              ltac:(discriminate) eq_refl) as (h & h' & H1 & _ & _ & _ & H2).
  exists h. auto.
Defined.

(** ** Summary histories and the results of [Quantiles] *)

Section SummaryExtras.

Import SummaryMetric.
#[local] Open Scope float_scope.

Lemma summary_history calls :
  forall s acc,
    values s = acc ->
    count s = wrap64 (len acc) ->
    sum s = fold_left PrimFloat.add acc 0 ->
    let s' := fold_left exec calls s in
    let kept := fold_left (fun acc k =>
                             match k with
                             | CallObserve value => acc ++ [value]
                             | CallReset => []
                             end) calls acc in
    values s' = kept /\
    count s' = wrap64 (len kept) /\
    sum s' = fold_left PrimFloat.add kept 0 /\
    name s' = name s /\ quantiles s' = quantiles s.
Proof.
  induction calls as [ | k calls IH ]; intros s acc Hv Hc Hs; simpl.
  - auto.
  - destruct k as [value | ].
    + destruct (IH (Observe s value) (acc ++ [value])) as (H1 & H2 & H3 & H4 & H5);
        simpl; auto.
      * now rewrite Hv.
      * rewrite Hc, wrap64_add_l. f_equal. unfold len.
        rewrite length_app. simpl. lia.
      * now rewrite fold_left_app, Hs.
    + destruct (IH (Reset s) []) as (H1 & H2 & H3 & H4 & H5); simpl; auto.
Qed.

(** X9.  A summary retains exactly the samples observed since the last
    [Reset], in the order observed; [Count] is their number modulo 2^64 and
    [Sum] their float64 sum, added left to right from 0; the name and the
    targets never change. *)
Theorem X9_summary_state_is_history
    (name : string) (targets : FloatMap.t) (calls : list call) :
  let s := fold_left exec calls (NewSummary name targets) in
  Value s = Float64Slice (retained calls) /\
  Count s = wrap64 (len (retained calls)) /\
  Sum s = fold_left PrimFloat.add (retained calls) 0 /\
  Name s = name /\ quantiles s = targets.
Proof.
  intros s.
  destruct (summary_history calls (NewSummary name targets) [])
    as (H1 & H2 & H3 & H4 & H5); try reflexivity.
  unfold Value, Count, Sum, Name, retained. fold s in H1, H2, H3, H4, H5.
  rewrite H1, H2, H3, H4, H5. auto.
Qed.

Context `{Arch} `{Float64.Sort}.

(** X10.  With samples retained, [Quantiles] panics exactly when some
    target has a negative rank; with none retained it never panics. *)
Theorem X10_quantiles_panics_iff (s : t) :
  (values s = [] -> Quantiles s <> None) /\
  (values s <> [] ->
   (Quantiles s = None <->
    Exists (fun q => (nearest_rank q (len (values s)) < 0)%Z)
           (FloatMap.keys (quantiles s)))).
Proof.
  split.
  - intros E. now rewrite (Quantiles_nil s E).
  - intros Hne. rewrite (Quantiles_loop s Hne), <- len_Float64s.
    set (sortedValues := Float64.Float64s (values s)).
    split.
    + intros Hnone.
      destruct (decide (Forall (fun q => (0 <= nearest_rank q (len sortedValues))%Z)
                          (FloatMap.keys (quantiles s)))) as [Hall | Hnot].
      * destruct (quantiles_loop_spec sortedValues _ [] Hall) as (r & Hr & _).
        congruence.
      * apply not_Forall_Exists in Hnot; [ | intros q; apply _ ].
        eapply Exists_impl; [ exact Hnot | ]. simpl. intros q Hq. lia.
    + apply quantiles_loop_panic.
Qed.


End SummaryExtras.

Lemma X10_quantiles_panics_iff_witness :
  SummaryMetric.values negative_target_summary <> [] /\
  Exists (fun q => @SummaryMetric.nearest_rank amd64 q
                     (SummaryMetric.len (SummaryMetric.values negative_target_summary)) < 0)
         (FloatMap.keys (SummaryMetric.quantiles negative_target_summary)) /\
  @SummaryMetric.Quantiles amd64 insertion_sort negative_target_summary = None.
Proof.
  assert (Hne : SummaryMetric.values negative_target_summary <> []) by discriminate.
  assert (Hex : Exists (fun q => @SummaryMetric.nearest_rank amd64 q
                          (SummaryMetric.len
                             (SummaryMetric.values negative_target_summary)) < 0)
                  (FloatMap.keys (SummaryMetric.quantiles negative_target_summary))).
  { apply Exists_cons_tl. apply Exists_cons_hd. reflexivity. }
  split; [ exact Hne | ]. split; [ exact Hex | ].
  exact (proj2 (proj2 (@X10_quantiles_panics_iff amd64 insertion_sort negative_target_summary) Hne) Hex).
Defined.


(** ** The registry as a whole *)

Section CollectorExtras.

Import Collector.
Implicit Types (c : Collector.t) (st : store) (m : Metric).

Lemma find_ext_bool (f g : Metric -> bool) (l : list Metric) :
  (forall x, f x = g x) -> List.find f l = List.find g l.
Proof.
  intros Hfg. induction l as [ | x l IH ]; simpl; [ reflexivity | ].
  now rewrite Hfg, IH.
Qed.

Lemma Register_effect c m st st' :
  Register c m st = Some st' ->
  exists name (mp : gmap string Metric),
    Name st m = Some name /\
    maps st !! metrics c = Some mp /\
    objects st' = objects st /\
    maps st' = <[metrics c := match mp !! name with
                              | Some _ => mp
                              | None => <[name := m]> mp
                              end]> (maps st).
Proof.
  intros Hreg. destruct (Register_inv _ _ _ _ Hreg) as (name & mp & Hn & Hmp).
  exists name, mp. split; [ exact Hn | ]. split; [ exact Hmp | ].
  rewrite (Register_spec c m st name mp Hn Hmp) in Hreg. injection Hreg as <-.
  destruct (mp !! name); simpl; split; auto. now rewrite insert_id.
Qed.

(** X12.  [Register] writes one entry of one map: it leaves the metric
    objects alone, what [Get] returns for every other name, and every other
    collector and every snapshot taken before. *)
Theorem X12_register_frame c m st st' :
  Register c m st = Some st' ->
  objects st' = objects st /\
  (forall name, Name st m <> Some name -> Get c name st' = Get c name st) /\
  (forall l, l <> metrics c -> read_map st' l = read_map st l) /\
  (forall c' name, metrics c' <> metrics c -> Get c' name st' = Get c' name st).
Proof.
  intros Hreg.
  destruct (Register_effect c m st st' Hreg) as (name0 & mp & Hn & Hmp & Ho & Hm).
  split; [ exact Ho | ].
  assert (Hother : forall l, l <> metrics c -> read_map st' l = read_map st l).
  { intros l Hl. unfold read_map. now rewrite Hm, lookup_insert_ne. }
  split; [ | split; [ exact Hother | ] ].
  - intros name Hname. unfold Get, read_map.
    rewrite Hm, lookup_insert_eq, Hmp. simpl.
    destruct (mp !! name0); [ reflexivity | ].
    apply lookup_insert_ne. congruence.
  - intros c' name Hc'. unfold Get. now rewrite Hother.
Qed.

Lemma register_all_get c name ms :
  forall st st',
    register_all c ms st = Some st' ->
    Get c name st' =
    match Get c name st with
    | Some m => Some m
    | None => List.find (named st name) ms
    end.
Proof.
  induction ms as [ | m ms IH ]; intros st st' Hrun; simpl in *.
  - injection Hrun as <-. now destruct (Get c name st).
  - destruct (Register c m st) as [st1 | ] eqn:Hreg; [ | discriminate ].
    destruct (Register_effect c m st st1 Hreg) as (name0 & mp & Hn & Hmp & Ho & Hm).
    rewrite (IH st1 st' Hrun).
    assert (Hnamed : forall m', named st1 name m' = named st name m').
    { intros m'. unfold named, Name. now rewrite Ho. }
    rewrite (find_ext_bool _ _ ms Hnamed).
    assert (Hget1 : Get c name st1 =
                    match mp !! name0 with
                    | Some _ => mp !! name
                    | None => <[name0 := m]> mp !! name
                    end).
    { unfold Get, read_map. rewrite Hm, lookup_insert_eq. simpl.
      now destruct (mp !! name0). }
    assert (Hget0 : Get c name st = mp !! name).
    { unfold Get. now rewrite (read_map_Some _ _ _ Hmp). }
    rewrite Hget1, Hget0. unfold named at 2. rewrite Hn.
    destruct (decide (name0 = name)) as [-> | Hne].
    + rewrite bool_decide_eq_true_2 by reflexivity.
      destruct (mp !! name) eqn:E; [ reflexivity | ].
      now rewrite lookup_insert_eq.
    + rewrite bool_decide_eq_false_2 by congruence.
      destruct (mp !! name0); [ reflexivity | ].
      now rewrite lookup_insert_ne.
Qed.

Lemma new_registry_get (st0 : store) (ms : list Metric) :
  Forall (fun m => is_Some (objects st0 !! m)) ms ->
  exists st1,
    register_all (fst (NewCollector st0)) ms (snd (NewCollector st0)) = Some st1 /\
    objects st1 = objects st0 /\
    forall name,
      Get (fst (NewCollector st0)) name st1 = List.find (named st0 name) ms.
Proof.
  intros Hall.
  set (c := fst (NewCollector st0)). set (st := snd (NewCollector st0)).
  assert (Hmp : maps st !! metrics c = Some ∅) by (simpl; apply lookup_insert_eq).
  destruct (register_all_Some c ms st) as [st1 Hrun]; [ eauto | exact Hall | ].
  exists st1. split; [ exact Hrun | ].
  destruct (register_all_spec c ms st st1 ∅ Hrun Hmp) as (_ & Ho & _).
  split; [ exact Ho | ].
  intros name. rewrite (register_all_get c name ms st st1 Hrun).
  unfold Get at 1. rewrite (read_map_Some st (metrics c) ∅ Hmp).
  rewrite lookup_empty. reflexivity.
Qed.

(** X13.  After registrations into a new collector, [Get name] returns the
    first of the registered metrics that goes by [name], and nil when there
    is none; whatever it returns is a metric whose [Name] is [name]. *)
Theorem X13_registry_content (st0 : store) (ms : list Metric) (name : string) :
  Forall (fun m => is_Some (objects st0 !! m)) ms ->
  exists st1,
    register_all (fst (NewCollector st0)) ms (snd (NewCollector st0)) = Some st1 /\
    Get (fst (NewCollector st0)) name st1 = List.find (named st0 name) ms /\
    (forall m, Get (fst (NewCollector st0)) name st1 = Some m ->
               Name st1 m = Some name /\ m ∈ ms).
Proof.
  intros Hall.
  destruct (new_registry_get st0 ms Hall) as (st1 & Hrun & Ho & Hget).
  exists st1. split; [ exact Hrun | ]. split; [ apply Hget | ].
  intros m Hm. rewrite Hget in Hm.
  destruct (List.find_some _ _ Hm) as [Hin Hnamed].
  split; [ | now apply list_elem_of_In ].
  unfold named in Hnamed. apply bool_decide_eq_true_1 in Hnamed.
  unfold Name in *. now rewrite Ho.
Qed.

End CollectorExtras.

Section CollectorOrder.

Import Collector.
Implicit Types (c : Collector.t) (st : store) (m : Metric).

Lemma NoDup_omap_tail st m ms :
  NoDup (omap (Name st) (m :: ms)) -> NoDup (omap (Name st) ms).
Proof.
  simpl. destruct (Name st m); [ | auto ]. intros Hnd. now inversion Hnd.
Qed.

(** With distinct names, which metric goes by a name does not depend on the
    order of the list. *)
Lemma find_named_perm st name ms ms' :
  Permutation ms ms' ->
  NoDup (omap (Name st) ms) ->
  List.find (named st name) ms = List.find (named st name) ms'.
Proof.
  induction 1 as [ | x l1 l2 Hp IH | x y l | l1 l2 l3 Hp1 IH1 Hp2 IH2 ]; intros Hnd.
  - reflexivity.
  - simpl. destruct (named st name x); [ reflexivity | ].
    apply IH. exact (NoDup_omap_tail _ _ _ Hnd).
  - simpl. destruct (named st name y) eqn:Hy, (named st name x) eqn:Hx;
      try reflexivity.
    exfalso. unfold named in Hx, Hy.
    apply bool_decide_eq_true_1 in Hx. apply bool_decide_eq_true_1 in Hy.
    simpl in Hnd. rewrite Hx, Hy in Hnd.
    inversion Hnd as [ | ? ? Hnin _ ]; subst. apply Hnin. left.
  - rewrite IH1 by exact Hnd. apply IH2.
    now rewrite <- (omap_Permutation (Name st) _ _ Hp1).
Qed.

(** X14.  When the registered metrics have distinct names, the registry
    that results does not depend on the order of the registrations. *)
Theorem X14_registration_order_free (st0 : store) (ms ms' : list Metric) :
  Forall (fun m => is_Some (objects st0 !! m)) ms ->
  NoDup (omap (Name st0) ms) ->
  Permutation ms ms' ->
  exists st1 st1',
    register_all (fst (NewCollector st0)) ms (snd (NewCollector st0)) = Some st1 /\
    register_all (fst (NewCollector st0)) ms' (snd (NewCollector st0)) = Some st1' /\
    read_map st1 (metrics (fst (NewCollector st0)))
    = read_map st1' (metrics (fst (NewCollector st0))).
Proof.
  intros Hall Hnd Hperm.
  assert (Hall' : Forall (fun m => is_Some (objects st0 !! m)) ms')
    by now rewrite <- Hperm.
  destruct (new_registry_get st0 ms Hall) as (st1 & Hrun & _ & Hget).
  destruct (new_registry_get st0 ms' Hall') as (st1' & Hrun' & _ & Hget').
  exists st1, st1'. split; [ exact Hrun | ]. split; [ exact Hrun' | ].
  apply map_eq. intros name.
  specialize (Hget name). specialize (Hget' name).
  unfold Get in Hget, Hget'. rewrite Hget, Hget'.
  now apply find_named_perm.
Qed.

End CollectorOrder.

Section CollectorEdges.

Import Collector.
Implicit Types (c : Collector.t) (st : store) (m : Metric).

Lemma Register_nil c m st :
  store_ok st -> metrics c = nil_addr -> Register c m st = None.
Proof.
  intros [_ Hmap] Hc. unfold Register. destruct (Name st m); simpl; [ | reflexivity ].
  now rewrite Hc, Hmap.
Qed.

Lemma Metrics_store_ok c st : store_ok st -> store_ok (snd (Metrics c st)).
Proof.
  intros [Hobj Hmap]. split; simpl; [ exact Hobj | ].
  rewrite lookup_insert_ne by apply new_addr_not_nil. exact Hmap.
Qed.

(** X15.  A [Collector] whose map is nil (one that [NewCollector] did not
    make) is of no use and stays so: on it [Register] panics whatever the
    metric, [Get] returns nil and [Metrics] an empty map; and no operation
    of the package allocates at nil, so the same holds after any
    [Metrics], [NewCollector], allocation of a metric, or [Register] on
    another collector: in particular [Register] still panics after a
    snapshot was taken with [Metrics]. *)
Theorem X15_nil_map_collector c st :
  store_ok st ->
  metrics c = nil_addr ->
  (forall m, Register c m st = None) /\
  (forall name, Get c name st = None) /\
  read_map (snd (Metrics c st)) (fst (Metrics c st)) = ∅ /\
  (forall c', store_ok (snd (Metrics c' st))) /\
  store_ok (snd (NewCollector st)) /\
  (forall o, store_ok (snd (alloc_object o st))) /\
  (forall c' m st', Register c' m st = Some st' -> store_ok st') /\
  (forall c' m, fst (Metrics c' st) <> metrics c /\
                Register c m (snd (Metrics c' st)) = None).
Proof.
  intros Hok Hc. pose proof Hok as [Hobj Hmap].
  assert (Hread : read_map st (metrics c) = ∅)
    by (unfold read_map; now rewrite Hc, Hmap).
  split; [ | split; [ | split; [ | split; [ | split; [ | split; [ | split ] ] ] ] ] ].
  - intros m. now apply Register_nil.
  - intros name. unfold Get. rewrite Hread. apply lookup_empty.
  - now rewrite Metrics_read.
  - intros c'. now apply Metrics_store_ok.
  - split; simpl; [ exact Hobj | ].
    rewrite lookup_insert_ne by apply new_addr_not_nil. exact Hmap.
  - intros o. split; simpl; [ | exact Hmap ].
    rewrite lookup_insert_ne by apply new_addr_not_nil. exact Hobj.
  - intros c' m st' Hreg.
    destruct (Register_effect c' m st st' Hreg) as (n0 & mp & _ & Hmp & Ho & Hm).
    split; [ now rewrite Ho | ].
    rewrite Hm, lookup_insert_ne by congruence. exact Hmap.
  - intros c' m. split.
    + rewrite Hc. apply new_addr_not_nil.
    + apply Register_nil; [ now apply Metrics_store_ok | exact Hc ].
Qed.

(** X16.  [NewCollector] makes a collector of its own: it is empty, its map
    is no map that existed, every collector that existed returns what it
    did, and a registration into either leaves the other alone. *)
Theorem X16_new_collector_independent (st : store) (c0 : Collector.t) :
  is_Some (maps st !! metrics c0) ->
  let c := fst (NewCollector st) in
  let st1 := snd (NewCollector st) in
  metrics c <> metrics c0 /\
  (forall name, Get c name st1 = None) /\
  (forall name, Get c0 name st1 = Get c0 name st) /\
  (forall m st2 name,
      Register c m st1 = Some st2 -> Get c0 name st2 = Get c0 name st) /\
  (forall m st2 name,
      Register c0 m st1 = Some st2 -> Get c name st2 = None).
Proof.
  intros [mp0 Hmp0] c st1.
  assert (Hfresh : maps st !! metrics c = None).
  { simpl. apply not_elem_of_dom. apply new_addr_unused. }
  assert (Hne : metrics c <> metrics c0) by congruence.
  assert (Hnew : forall name, Get c name st1 = None).
  { intros name. unfold Get, read_map. simpl.
    rewrite lookup_insert_eq. simpl. apply lookup_empty. }
  assert (Hold : forall name, Get c0 name st1 = Get c0 name st).
  { intros name. unfold Get, read_map. simpl.
    now rewrite lookup_insert_ne by exact Hne. }
  split; [ exact Hne | ]. split; [ exact Hnew | ]. split; [ exact Hold | ].
  split.
  - intros m st2 name Hreg.
    destruct (Register_effect c m st1 st2 Hreg) as (n0 & mp & _ & _ & _ & Hm).
    rewrite <- Hold. unfold Get, read_map.
    rewrite Hm, lookup_insert_ne by exact Hne. reflexivity.
  - intros m st2 name Hreg.
    destruct (Register_effect c0 m st1 st2 Hreg) as (n0 & mp & _ & _ & _ & Hm).
    rewrite <- (Hnew name). unfold Get, read_map.
    rewrite Hm, lookup_insert_ne by congruence. reflexivity.
Qed.

End CollectorEdges.

(** ** The reporter loop over a sequence of events *)

Section LoopExtras.

Context {R : Type} `{Reporter R}.

Lemma run_stopped (evs : list Loop.event) (r : R) (st : store) :
  Loop.run evs (Loop.mk r false) st = Some (Loop.mk r false, st).
Proof.
  induction evs as [ | ev evs IH ]; simpl; [ reflexivity | ]. exact IH.
Qed.

Lemma run_tick (evs : list Loop.event) (r : R) (st : store) :
  Loop.run (Loop.tick :: evs) (Loop.mk r true) st
  = match Report r (Collector.metrics globalCollector) st with
    | Some (r', st') => Loop.run evs (Loop.mk r' true) st'
    | None => None
    end.
Proof.
  change (Loop.run (Loop.tick :: evs) (Loop.mk r true) st)
    with (match Loop.step Loop.tick (Loop.mk r true) st with
          | Some (l', st') => Loop.run evs l' st'
          | None => None
          end).
  unfold Loop.step. cbn [Loop.running Loop.reporter].
  now destruct (Report r (Collector.metrics globalCollector) st) as [[r1 st1] | ].
Qed.

(** X17.  With a positive interval, the loop calls [Report] once for every
    tick it receives before it first receives stop, each time with the
    global collector's map, and never after; a [Report] that panics ends the
    loop there; beyond these calls the loop changes nothing, and it is still
    running exactly when no stop was received.  With an interval that is not
    positive the goroutine panics in [time.NewTicker] before any tick. *)
Theorem X17_reports_until_stop
    (interval : Z) (evs : list Loop.event) (r : R) (st : store) :
  (interval <= 0 -> StartReporter interval r = None) /\
  (0 < interval ->
   exists l,
     StartReporter interval r = Some l /\
     Loop.run evs l st
     = match Loop.reports (Loop.ticks_before_stop evs) r st with
       | Some (r', st') => Some (Loop.mk r' (negb (Loop.received_stop evs)), st')
       | None => None
       end).
Proof.
  unfold StartReporter. split.
  - intros Hle. now rewrite (proj2 (Z.ltb_ge 0 interval) Hle).
  - intros Hpos. rewrite (proj2 (Z.ltb_lt 0 interval) Hpos).
    exists (Loop.mk r true). split; [ reflexivity | ].
    revert r st. induction evs as [ | ev evs IH ]; intros r st.
    + reflexivity.
    + destruct ev.
      * rewrite run_tick.
        change (Loop.reports (Loop.ticks_before_stop (Loop.tick :: evs)) r st)
          with (match Report r (Collector.metrics globalCollector) st with
                | Some (r', st') => Loop.reports (Loop.ticks_before_stop evs) r' st'
                | None => None
                end).
        change (Loop.received_stop (Loop.tick :: evs)) with (Loop.received_stop evs).
        destruct (Report r (Collector.metrics globalCollector) st) as [[r1 st1] | ];
          [ apply IH | reflexivity ].
      * change (Loop.run (Loop.stop :: evs) (Loop.mk r true) st)
          with (Loop.run evs (Loop.mk r false) st).
        rewrite run_stopped. reflexivity.
Qed.

End LoopExtras.

(** ** The further properties at the metrics of the tests *)

Lemma X12_register_frame_witness :
  exists st1,
    Collector.Register test_collector test_first test_store = Some st1 /\
    objects st1 = objects test_store /\
    Collector.Get test_collector "other" st1
    = Collector.Get test_collector "other" test_store.
Proof.
  eexists. split; [ vm_compute; reflexivity | ].
  match goal with
  | |- objects ?st1 = _ /\ _ =>
      assert (Hreg : Collector.Register test_collector test_first test_store = Some st1)
        by (vm_compute; reflexivity);
      destruct (X12_register_frame test_collector test_first test_store st1 Hreg)
        as (Ho & Hget & _)
  end.
  split; [ exact Ho | ]. apply Hget. discriminate.
Defined.

Lemma X13_registry_content_witness :
  Forall (fun m => is_Some (objects test_store !! m)) [test_first; test_second] /\
  exists st1,
    Collector.register_all (fst (NewCollector test_store)) [test_first; test_second]
      (snd (NewCollector test_store)) = Some st1 /\
    Collector.Get (fst (NewCollector test_store)) "collector_counter" st1
    = Some test_first.
Proof.
  assert (H : Forall (fun m => is_Some (objects test_store !! m))
                [test_first; test_second])
    by (repeat constructor; vm_compute; eauto).
  split; [ exact H | ].
  destruct (X13_registry_content test_store [test_first; test_second]
              "collector_counter" H) as (st1 & Hrun & Hget & _).
  exists st1. split; [ exact Hrun | exact Hget ].
Defined.

Lemma X14_registration_order_free_witness :
  Forall (fun m => is_Some (objects test_metrics_store !! m))
    [test_counter_metric; test_gauge_metric] /\
  NoDup (omap (Name test_metrics_store) [test_counter_metric; test_gauge_metric]) /\
  exists st1 st1',
    Collector.register_all (fst (NewCollector test_metrics_store))
      [test_counter_metric; test_gauge_metric]
      (snd (NewCollector test_metrics_store)) = Some st1 /\
    Collector.register_all (fst (NewCollector test_metrics_store))
      [test_gauge_metric; test_counter_metric]
      (snd (NewCollector test_metrics_store)) = Some st1' /\
    read_map st1 (Collector.metrics (fst (NewCollector test_metrics_store)))
    = read_map st1' (Collector.metrics (fst (NewCollector test_metrics_store))).
Proof.
  assert (H1 : Forall (fun m => is_Some (objects test_metrics_store !! m))
                 [test_counter_metric; test_gauge_metric])
    by (repeat constructor; vm_compute; eauto).
  assert (H2 : NoDup (omap (Name test_metrics_store)
                        [test_counter_metric; test_gauge_metric])).
  { vm_compute. apply NoDup_cons. split; [ | apply NoDup_singleton ].
    intros Hin. apply list_elem_of_singleton in Hin. discriminate. }
  split; [ exact H1 | ]. split; [ exact H2 | ].
  exact (X14_registration_order_free test_metrics_store
           [test_counter_metric; test_gauge_metric]
           [test_gauge_metric; test_counter_metric] H1 H2 (perm_swap _ _ _)).
Defined.

Lemma X15_nil_map_collector_witness :
  store_ok test_metrics_store /\
  Collector.metrics zero_collector = nil_addr /\
  Collector.Register zero_collector test_counter_metric test_metrics_store = None /\
  store_ok (snd (Collector.Metrics zero_collector test_metrics_store)) /\
  fst (Collector.Metrics zero_collector test_metrics_store)
    <> Collector.metrics zero_collector /\
  Collector.Register zero_collector test_counter_metric
    (snd (Collector.Metrics zero_collector test_metrics_store)) = None.
Proof.
  assert (Hok : store_ok test_metrics_store) by (split; reflexivity).
  split; [ exact Hok | ]. split; [ reflexivity | ].
  destruct (X15_nil_map_collector zero_collector test_metrics_store Hok eq_refl)
    as (Hreg & _ & _ & Hsnap & _ & _ & _ & Hafter).
  split; [ apply Hreg | ]. split; [ apply Hsnap | ].
  exact (Hafter zero_collector test_counter_metric).
Defined.

Lemma X16_new_collector_independent_witness :
  is_Some (maps test_store !! Collector.metrics test_collector) /\
  Collector.metrics (fst (NewCollector test_store)) <> Collector.metrics test_collector /\
  Collector.Get (fst (NewCollector test_store)) "collector_counter"
    (snd (NewCollector test_store)) = None.
Proof.
  assert (H : is_Some (maps test_store !! Collector.metrics test_collector))
    by (vm_compute; eauto).
  split; [ exact H | ].
  destruct (X16_new_collector_independent test_store test_collector H)
    as (Hne & Hnew & _).
  split; [ exact Hne | apply Hnew ].
Defined.

(** ** Buckets at the edges *)

Section BucketEdges.

Context `{Float64.Sort}.

Import HistogramMetric.
#[local] Open Scope float_scope.

Lemma leb_refl v : is_nan v = false -> (v <=? v) = true.
Proof.
  unfold is_nan. rewrite FloatAxioms.eqb_spec, FloatAxioms.leb_spec.
  unfold SFeqb, SFleb. destruct (SFcompare (Prim2SF v) (Prim2SF v)) as [[ | | ] | ];
    simpl; congruence.
Qed.

Lemma leb_infinity v : (v <=? infinity) = negb (is_nan v).
Proof.
  unfold is_nan. rewrite FloatAxioms.eqb_spec, FloatAxioms.leb_spec.
  change (Prim2SF infinity) with (S754_infinity false).
  destruct (Prim2SF v) as [ s | s | | s m e ]; cbn; try reflexivity.
  - now destruct s.
  - change (PosDef.Pos.compare_cont Eq) with Pos.compare.
    rewrite Z.compare_refl, Pos.compare_refl. now destruct s.
Qed.

Lemma taken_nan_bound bound values : is_nan bound = true -> taken bound values = 0%nat.
Proof.
  intros Hnan. unfold taken. induction values as [ | v vs IH ]; simpl; [ reflexivity | ].
  now rewrite (leb_not_nan_r v bound Hnan).
Qed.

Lemma taken_infinity values :
  taken infinity values = length (List.filter (fun v => negb (is_nan v)) values).
Proof.
  unfold taken. induction values as [ | v vs IH ]; simpl; [ reflexivity | ].
  rewrite leb_infinity. destruct (negb (is_nan v)); simpl; now rewrite IH.
Qed.

(** X18.  The bounds are inclusive, a NaN bound is a dead bucket, and a
    [+Inf] bound is a bucket for everything: in a constructed histogram,
    after any observations, observing a value equal to a bound increments
    that bound's bucket; the bucket of a NaN bound still counts nothing; and
    the bucket of a [+Inf] bound has been incremented once for every
    observed value that is not NaN. *)
Theorem X18_bucket_edges
    (name : string) (boundaries observed : list float) (i : nat) (bound : float) :
  Float64.Float64s boundaries !! i = Some bound ->
  exists h,
    observe_all (NewHistogram name boundaries) observed = Some h /\
    Buckets h !! i = Some bound /\
    (is_nan bound = false ->
     exists h' c, Observe h bound = Some h' /\
                  counts h !! i = Some c /\ counts h' !! i = Some (c + 1)) /\
    (is_nan bound = true -> counts h !! i = Some 0) /\
    (bound = infinity ->
     counts h !! i =
     Some (incremented (length (List.filter (fun v => negb (is_nan v)) observed)) 0)).
Proof.
  intros Hi.
  assert (Hne : boundaries <> [])
    by (intros ->; rewrite Float64s_empty in Hi; discriminate).
  destruct (histogram_history name boundaries observed Hne)
    as (h & Hrun & _ & Hb & Hl & _ & _ & Hhist).
  exists h. split; [ exact Hrun | ]. unfold Buckets. rewrite Hb.
  split; [ exact Hi | ]. split; [ | split ].
  - intros Hnum.
    assert (Hbh : buckets h <> []) by (rewrite Hb; intros E; now apply Float64s_nil in E).
    assert (Hwf : length (counts h) = length (buckets h))
      by (rewrite Hb, Float64s_length; exact Hl).
    destruct (Observe_spec h bound Hbh Hwf) as (cs' & Hobs & _ & Hat).
    rewrite Hb in Hat. destruct (Hat i bound Hi) as (c & Hc & Hc').
    rewrite (leb_refl bound Hnum) in Hc'.
    eexists _, c. split; [ exact Hobs | ]. split; [ exact Hc | exact Hc' ].
  - intros Hnan. rewrite (Hhist i bound Hi), (taken_nan_bound bound observed Hnan).
    reflexivity.
  - intros ->. now rewrite (Hhist i infinity Hi), taken_infinity.
Qed.

End BucketEdges.

Lemma X18_bucket_edges_witness :
  Float64.Float64s [1.0; infinity]%float !! 1%nat = Some infinity /\
  exists h,
    HistogramMetric.observe_all (NewHistogram "h" [1.0; infinity]%float)
      [0.5; nan; 7]%float = Some h /\
    HistogramMetric.counts h !! 1%nat = Some 2%float.
Proof.
  split; [ reflexivity | ].
  destruct (@X18_bucket_edges insertion_sort "h" [1.0; infinity]%float [0.5; nan; 7]%float
              1 infinity ltac:(vm_compute; reflexivity))
    as (h & Hrun & _ & _ & _ & Hinf).
  exists h. split; [ exact Hrun | ]. exact (Hinf eq_refl).
Defined.

Lemma C4_reporter_hands_live_map_witness :
  0 < 1000000000 /\
  exists l,
    StartReporter 1000000000 ([] : Recorder) = Some l /\
    Loop.step Loop.tick l init_store
    = Some (Loop.mk [Collector.metrics globalCollector] true, init_store).
Proof.
  split; [ reflexivity | ].
  apply (proj1 C4_reporter_hands_live_map 1000000000 [] init_store).
  reflexivity.
Defined.

Lemma X17_reports_until_stop_witness :
  0 < 1000000000 /\
  exists l,
    StartReporter 1000000000 ([] : Recorder) = Some l /\
    Loop.run [Loop.tick; Loop.tick; Loop.stop; Loop.tick] l init_store
    = Some (Loop.mk [Collector.metrics globalCollector; Collector.metrics globalCollector]
                    false,
            init_store).
Proof.
  split; [ reflexivity | ].
  destruct (proj2 (X17_reports_until_stop 1000000000
                     [Loop.tick; Loop.tick; Loop.stop; Loop.tick]
                     ([] : Recorder) init_store) eq_refl) as (l & Hl & Hrun).
  exists l. split; [ exact Hl | exact Hrun ].
Defined.
